(** * Account ledger, block replay and peer bookkeeping of the blockchain node

    A shallow embedding of [foundation/blockchain/database/database.go]
    (the account database: [ApplyTransaction], [ApplyMiningReward],
    [ReadAllBlocks], [New], [Reset], [Remove], [CopyAccounts]) and of the
    sequential parts of [foundation/blockchain/worker.go]: the signal
    functions, [send] and the peer operations from [addNewPeers] to
    [runPeerUpdatesOperation]. The goroutines of the worker and the
    mining operation are not modelled.

    - [uint64] values are integers in [0, 2^64); every Go operation on them
      is written with its wrap-around ([add64], [sub64], [mul64]).
    - [db.accounts] is a [gmap] from account ids to accounts; reading a key
      that is absent gives Go's zero value ([acct]).
    - A method that mutates the database returns the new database next to
      its Go result.
    - The storage iterator is an interface in the source and a type class
      here; the read loop is driven by fuel because an iterator need not
      ever report [Done]. *)

From stdpp Require Import gmap strings list fin_maps pretty.
From Stdlib Require Import ZArith Lia.

Local Open Scope Z_scope.

(** ** Machine integers *)

Definition two64 : Z := 2 ^ 64.

Definition wrap64 (z : Z) : Z := z mod two64.
Definition add64 (a b : Z) : Z := wrap64 (a + b).
Definition sub64 (a b : Z) : Z := wrap64 (a - b).
Definition mul64 (a b : Z) : Z := wrap64 (a * b).

Definition is_u64 (z : Z) : Prop := 0 <= z < two64.

(** ** Data model *)

(** [type AccountID string]: a hex encoded account address. *)
Abbreviation AccountID := string.

(** [Account]: the balance and the latest nonce of one account. *)
Record Account := mkAccount {
  Balance : Z;
  Nonce : Z
}.

(** Go's zero value, what [db.accounts[k]] yields for an absent key. *)
Definition zeroAccount : Account := mkAccount 0 0.

Definition withBalance (a : Account) (b : Z) : Account := mkAccount b (Nonce a).
Definition withNonce (a : Account) (n : Z) : Account := mkAccount (Balance a) n.

(** [BlockTx]: a signed transaction as it is stored in a block. The sender
    is not a field, it is recovered from [Signature]. *)
Record BlockTx := mkBlockTx {
  ChainID : Z;
  TxNonce : Z;
  ToID : AccountID;
  Value : Z;
  Tip : Z;
  Data : list Z;
  GasPrice : Z;
  GasUnits : Z;
  Signature : string
}.

Record BlockHeader := mkBlockHeader {
  Number : Z;
  PrevBlockHash : string;
  TimeStamp : Z;
  BeneficiaryID : AccountID;
  Difficulty : Z;
  MiningReward : Z;
  StateRoot : string;
  TransRoot : string;
  HeaderNonce : Z
}.

(** [Trans] stands for [block.Trans.Values()], the transactions in block order. *)
Record Block := mkBlock {
  Header : BlockHeader;
  Trans : list BlockTx
}.

Definition zeroHeader : BlockHeader := mkBlockHeader 0 "" 0 "" 0 0 "" "" 0.
Definition zeroBlock : Block := mkBlock zeroHeader [].

(** [genesis.Genesis]; [Balances] lists the genesis map in the order in which
    [range] visits it. *)
Record Genesis := mkGenesis {
  GenChainID : Z;
  GenMiningReward : Z;
  GenGasPrice : Z;
  TransPerBlock : Z;
  GenDifficulty : Z;
  Balances : list (string * Z)
}.

(** The errors the modelled functions return. The first five are the
    [fmt.Errorf] values of [ApplyTransaction] with their arguments;
    [ErrExternal] is an error handed through from a collaborator (storage,
    block validation, account id parsing). *)
Inductive Error :=
| ErrInvalidSignature (cause : string)
| ErrWrongChainID (got exp : Z)
| ErrSelfTransfer (from to : AccountID)
| ErrNonceTooSmall (current provided : Z)
| ErrInsufficientFunds (bal needed : Z)
| ErrExternal (msg : string).

(** [Database] without its lock and its storage handle: the lock orders
    calls, which are sequential here, and storage is passed where it is
    used. *)
Record Database := mkDatabase {
  genesis : Genesis;
  latestBlock : Block;
  accounts : gmap AccountID Account
}.

(** [m[k]] in Go. *)
Definition acct (m : gmap AccountID Account) (k : AccountID) : Account :=
  default zeroAccount (m !! k).

Definition setAccounts (db : Database) (m : gmap AccountID Account) : Database :=
  mkDatabase (genesis db) (latestBlock db) m.

(** The sum of all balances held in the account map, as an exact integer. *)
Definition totalBalance (m : gmap AccountID Account) : Z :=
  map_fold (fun _ a s => Balance a + s) 0 m.

(** Every stored balance and nonce is a [uint64]. *)
Definition wfAccounts (m : gmap AccountID Account) : Prop :=
  forall k, is_u64 (Balance (acct m k)) /\ is_u64 (Nonce (acct m k)).

(** Every numeric field of the transaction is a [uint64]. *)
Definition wfTx (tx : BlockTx) : Prop :=
  is_u64 (TxNonce tx) /\ is_u64 (Value tx) /\ is_u64 (Tip tx) /\
  is_u64 (GasPrice tx) /\ is_u64 (GasUnits tx).

(** ** The account ledger *)

Section Ledger.

(** [tx.FromAccount()]: recovery of the sender from the signature; either
    the text of the error or the account id. *)
Variable FromAccount : BlockTx -> string + AccountID.

(** [Database.ApplyMiningReward] *)
Definition ApplyMiningReward (db : Database) (block : Block) : Database :=
  let account := acct (accounts db) (BeneficiaryID (Header block)) in
  let account := withBalance account (add64 (Balance account) (MiningReward (Header block))) in
  setAccounts db (<[BeneficiaryID (Header block) := account]> (accounts db)).

(** The gas fee actually charged: the product, clamped to the balance. *)
Definition gasFeeOf (tx : BlockTx) (from : Account) : Z :=
  let gasFee := mul64 (GasPrice tx) (GasUnits tx) in
  if Z.ltb (Balance from) gasFee then Balance from else gasFee.

(** The four accounting checks, in source order, on the sender as it is
    after the gas debit. [None] when all pass. *)
Definition accountingChecks (db : Database) (fromID : AccountID) (from : Account)
    (tx : BlockTx) : option Error :=
  if negb (Z.eqb (ChainID tx) (GenChainID (genesis db))) then
    Some (ErrWrongChainID (ChainID tx) (GenChainID (genesis db)))
  else if bool_decide (fromID = ToID tx) then
    Some (ErrSelfTransfer fromID (ToID tx))
  else if Z.leb (TxNonce tx) (Nonce from) then
    Some (ErrNonceTooSmall (Nonce from) (TxNonce tx))
  else if Z.eqb (Balance from) 0 || Z.ltb (Balance from) (add64 (Value tx) (Tip tx)) then
    Some (ErrInsufficientFunds (Balance from) (add64 (Value tx) (Tip tx)))
  else None.

(** The sender's balance right after the gas debit, the balance the
    accounting checks read. *)
Definition postGasBalance (tx : BlockTx) (from : Account) : Z :=
  sub64 (Balance from) (gasFeeOf tx from).

(** [Database.ApplyTransaction]: the new database and the returned error. *)
Definition ApplyTransaction (db : Database) (block : Block) (tx : BlockTx)
    : Database * option Error :=
  match FromAccount tx with
  | inl err => (db, Some (ErrInvalidSignature err))
  | inr fromID =>
    let bnfcID := BeneficiaryID (Header block) in
    (* Capture these accounts from the database. *)
    let from := acct (accounts db) fromID in
    let to := acct (accounts db) (ToID tx) in
    let bnfc := acct (accounts db) bnfcID in
    (* The gas fee is paid regardless. *)
    let gasFee := gasFeeOf tx from in
    let from := withBalance from (sub64 (Balance from) gasFee) in
    let bnfc := withBalance bnfc (add64 (Balance bnfc) gasFee) in
    (* Make sure these changes get applied. *)
    let m := <[fromID := from]> (accounts db) in
    let m := <[bnfcID := bnfc]> m in
    match accountingChecks db fromID from tx with
    | Some err => (setAccounts db m, Some err)
    | None =>
      (* Update the balances between the two parties. *)
      let from := withBalance from (sub64 (Balance from) (Value tx)) in
      let to := withBalance to (add64 (Balance to) (Value tx)) in
      (* Give the beneficiary the tip. *)
      let from := withBalance from (sub64 (Balance from) (Tip tx)) in
      let bnfc := withBalance bnfc (add64 (Balance bnfc) (Tip tx)) in
      (* Update the nonce for the next transaction check. *)
      let from := withNonce from (TxNonce tx) in
      (* Update the final changes to these accounts. *)
      let m := <[fromID := from]> m in
      let m := <[ToID tx := to]> m in
      let m := <[bnfcID := bnfc]> m in
      (setAccounts db m, None)
    end
  end.

(** The exact integer result of every [+=] and [-=] that
    [ApplyTransaction] performs on a balance, in source order; the
    operands are the [uint64] values the code holds at that point. An
    operation wraps when its exact result is outside [0, 2^64). *)
Definition balanceOps (db : Database) (block : Block) (tx : BlockTx) : list Z :=
  match FromAccount tx with
  | inl _ => []
  | inr fromID =>
    let from := acct (accounts db) fromID in
    let to := acct (accounts db) (ToID tx) in
    let bnfc := acct (accounts db) (BeneficiaryID (Header block)) in
    let gasFee := gasFeeOf tx from in
    let gasOps := [Balance from - gasFee; Balance bnfc + gasFee] in
    let from := withBalance from (sub64 (Balance from) gasFee) in
    let bnfc := withBalance bnfc (add64 (Balance bnfc) gasFee) in
    match accountingChecks db fromID from tx with
    | Some _ => gasOps
    | None =>
      gasOps ++
      [Balance from - Value tx;
       Balance to + Value tx;
       sub64 (Balance from) (Value tx) - Tip tx;
       Balance bnfc + Tip tx]
    end
  end.

(** A sequence of calls, each on the database the call before left. *)
Fixpoint applyAll (db : Database) (calls : list (Block * BlockTx))
    : Database * list (option Error) :=
  match calls with
  | [] => (db, [])
  | (block, tx) :: rest =>
    let '(db1, err) := ApplyTransaction db block tx in
    let '(db2, errs) := applyAll db1 rest in
    (db2, err :: errs)
  end.

End Ledger.

(** ** Block replay *)

(** The [Iterator] interface of the storage layer. [Next] advances the
    cursor and yields a block and an error; [Done] reads the cursor. *)
Class Iterator (I : Type) := {
  Next : I -> (Block * option Error) * I;
  Done : I -> bool
}.

Section Replay.

Variable FromAccount : BlockTx -> string + AccountID.

(** [block.ValidateBlock(latestBlock, evHandler)]: linkage, number,
    proof of work, roots and signatures, checked outside this package. *)
Variable ValidateBlock : Block -> Block -> option Error.

(** [ToAccountID]: parsing of a genesis key into an account id. *)
Variable ToAccountID : string -> Error + AccountID.

Context {I : Type} `{Iterator I}.

(** The loop of [ReadAllBlocks]:
    [for block, err := iter.Next(); !iter.Done(); block, err = iter.Next()].
    Every round starts with the [Next] of the init or post statement,
    then tests [Done], then runs the body. [None] when the fuel is used
    up before the loop is left. *)
Fixpoint readLoop (fuel : nat) (validate : bool) (iter : I)
    (blocks : list Block) (latest : Block) : option (Error + list Block) :=
  match fuel with
  | O => None
  | S fuel' =>
    let '((block, err), iter') := Next iter in
    if Done iter' then Some (inr blocks)
    else
      match err with
      | Some e => Some (inl e)
      | None =>
        match (if validate then ValidateBlock block latest else None) with
        | Some e => Some (inl e)
        | None => readLoop fuel' validate iter' (blocks ++ [block]) block
        end
      end
  end.

(** [Database.ReadAllBlocks], on the iterator [db.storage.ForEach()]. *)
Definition ReadAllBlocks (fuel : nat) (iter : I) (validate : bool)
    : option (Error + list Block) :=
  readLoop fuel validate iter [] zeroBlock.

(** The genesis loop of [New]: one account per genesis balance. *)
Fixpoint applyGenesis (balances : list (string * Z)) (m : gmap AccountID Account)
    : Error + gmap AccountID Account :=
  match balances with
  | [] => inr m
  | (accountStr, balance) :: rest =>
    match ToAccountID accountStr with
    | inl err => inl err
    | inr accountID => applyGenesis rest (<[accountID := mkAccount balance 0]> m)
    end
  end.

(** The inner loop of the replay: the error of [ApplyTransaction] is not
    bound to anything in the source. *)
Definition replayTrans (db : Database) (block : Block) : Database :=
  foldl (fun d tx => fst (ApplyTransaction FromAccount d block tx)) db (Trans block).

Definition replayBlock (db : Database) (block : Block) : Database :=
  ApplyMiningReward (replayTrans db block) block.

Definition replayBlocks (db : Database) (blocks : list Block) : Database :=
  foldl replayBlock db blocks.

(** [database.New]: [None] when the read loop ran out of fuel, else the
    returned error or the database. *)
Definition New (fuel : nat) (gen : Genesis) (iter : I) : option (Error + Database) :=
  let db := mkDatabase gen zeroBlock ∅ in
  match ReadAllBlocks fuel iter true with
  | None => None
  | Some (inl err) => Some (inl err)
  | Some (inr blocks) =>
    match applyGenesis (Balances gen) (accounts db) with
    | inl err => Some (inl err)
    | inr m =>
      let db := setAccounts db m in
      (* if len(blocks) > 0 { db.latestBlock = blocks[len(blocks)-1] } *)
      let db := mkDatabase (genesis db) (default (latestBlock db) (last blocks)) (accounts db) in
      Some (inr (replayBlocks db blocks))
    end
  end.

(** The cursor after [k] calls of [Next]. *)
Fixpoint nexts (k : nat) (iter : I) : I :=
  match k with
  | O => iter
  | S k' => nexts k' (snd (Next iter))
  end.

(** What the [k]-th call of [Next] (counting from 0) yields. *)
Definition yieldAt (iter : I) (k : nat) : Block * option Error :=
  fst (Next (nexts k iter)).

(** What [Done] answers right after the [k]-th call of [Next]. *)
Definition doneAfter (iter : I) (k : nat) : bool :=
  Done (nexts (S k) iter).

Definition blockAt (iter : I) (k : nat) : Block := fst (yieldAt iter k).

(** The blocks of the first [n] calls of [Next], in order. *)
Definition yielded (iter : I) (n : nat) : list Block :=
  map (blockAt iter) (seq 0 n).

(** The block that round [k] of the read loop holds as [latestBlock],
    as long as the rounds before it went through. *)
Definition prevBlock (iter : I) (k : nat) : Block :=
  match k with
  | O => zeroBlock
  | S j => blockAt iter j
  end.

(** The error with which the body of round [k] returns, if it does:
    the error of [Next], else the error of the validation. *)
Definition roundError (validate : bool) (iter : I) (k : nat) : option Error :=
  match snd (yieldAt iter k) with
  | Some e => Some e
  | None =>
    if validate then ValidateBlock (blockAt iter k) (prevBlock iter k) else None
  end.

(** The first error among the rounds [0 .. n-1]. *)
Definition firstError (validate : bool) (iter : I) (n : nat) : option Error :=
  head (omap (roundError validate iter) (seq 0 n)).

End Replay.

(** ** Peer bookkeeping of the worker *)

(** [Peer]: a node of the network, equal to another when the hosts agree. *)
Record Peer := mkPeer { Host : string }.

(** What [bw.evHandler] is called with inside [addNewPeers]. *)
Inductive Event :=
| EvStarted
| EvCompleted
| EvAddingPeer (peer : Peer).

Section Worker.

(** The node state behind [bw.state], with its method [addPeerNode]. *)
Variable State : Type.
Variable addPeerNode : State -> Peer -> State * option Error.

(** What a run of the worker can be observed by: the node state, the
    peers handed to [addPeerNode] so far and the events logged so far. *)
Record World := mkWorld {
  wState : State;
  wCalls : list Peer;
  wLog : list Event
}.

Definition evHandler (e : Event) (w : World) : World :=
  mkWorld (wState w) (wCalls w) (wLog w ++ [e]).

Definition callAddPeerNode (peer : Peer) (w : World) : World * option Error :=
  let '(s, err) := addPeerNode (wState w) peer in
  (mkWorld s (wCalls w ++ [peer]) (wLog w), err).

(** The [range] loop of [addNewPeers] with the [return nil] in its body. *)
Fixpoint addNewPeersLoop (knownPeers : list Peer) (w : World) : World * option Error :=
  match knownPeers with
  | [] => (w, None)
  | peer :: rest =>
    let '(w, err) := callAddPeerNode peer w in
    match err with
    | Some _ =>
      (* It already exists, nothing to report. *)
      (w, None)
    | None => addNewPeersLoop rest (evHandler (EvAddingPeer peer) w)
    end
  end.

(** [bcWorker.addNewPeers]; the deferred event runs at the return. *)
Definition addNewPeers (knownPeers : list Peer) (w : World) : World * option Error :=
  let w := evHandler EvStarted w in
  let '(w, err) := addNewPeersLoop knownPeers w in
  (evHandler EvCompleted w, err).

(** [AllAdded s l s']: from state [s], [addPeerNode] accepts every peer
    of [l] in turn and leaves the state [s']. *)
Inductive AllAdded : State -> list Peer -> State -> Prop :=
| AllAdded_nil s : AllAdded s [] s
| AllAdded_cons s peer s1 rest s2 :
    addPeerNode s peer = (s1, None) ->
    AllAdded s1 rest s2 ->
    AllAdded s (peer :: rest) s2.

End Worker.

Arguments mkWorld {State} _ _ _.
Arguments wState {State} _.
Arguments wCalls {State} _.
Arguments wLog {State} _.
Arguments evHandler {State} _ _.
Arguments callAddPeerNode {State} _ _ _.
Arguments addNewPeersLoop {State} _ _ _.
Arguments addNewPeers {State} _ _ _.
Arguments AllAdded {State} _ _ _ _.

(** ** Instances used in the examples *)

(** A stand-in for signature recovery: the signature field names the
    signer, and the empty signature cannot be recovered. *)
Definition sigFromAccount (tx : BlockTx) : string + AccountID :=
  if String.eqb (Signature tx) "" then inl "invalid signature values"%string
  else inr (Signature tx).

(** Block validation that accepts a block when its number follows the
    number of its parent. *)
Definition numberValidate (block latest : Block) : option Error :=
  if Z.eqb (Number (Header block)) (Number (Header latest) + 1) then None
  else Some (ErrExternal "this block is not the next number").

(** Account id parsing that accepts every non-empty key as it is. *)
Definition plainToAccountID (s : string) : Error + AccountID :=
  if String.eqb s "" then inl (ErrExternal "invalid account format") else inr s.

(** A scripted iterator: each call of [Next] yields the next entry of the
    script, and [Done] answers with the flag of the entry served last.
    Past the end of the script it reports the end of the chain. *)
Record ScriptIter := mkScriptIter {
  script : list (Block * option Error * bool);
  atEnd : bool
}.

#[export] Instance scriptIterator : Iterator ScriptIter := {
  Next it :=
    match script it with
    | [] => ((zeroBlock, Some (ErrExternal "end of chain")), mkScriptIter [] true)
    | (b, e, d) :: rest => ((b, e), mkScriptIter rest d)
    end;
  Done it := atEnd it
}.

(** The cursor of a store that holds [blocks]: it serves them in order and
    answers the call after the last one with an empty block, an error and
    [Done]. *)
Definition storedChain (blocks : list Block) : ScriptIter :=
  mkScriptIter (map (fun b => (b, None, false)) blocks) false.

(** Modelled from the spec: [State.addPeerNode] is not among the sources
    at hand; the known peers are a set of hosts and adding a host that is
    already known is the duplicate-peer error. *)
Definition setAddPeerNode (s : gset string) (peer : Peer) : gset string * option Error :=
  if decide (Host peer ∈ s) then (s, Some (ErrExternal "peer already exists"))
  else ({[Host peer]} ∪ s, None).

(** Accounts, headers and transactions of the scenarios. *)
Definition ledgerOf (l : list (AccountID * Account)) (chain : Z) : Database :=
  mkDatabase (mkGenesis chain 0 0 0 0 []) zeroBlock (list_to_map l).

Definition minedBy (bnfc : AccountID) : Block :=
  mkBlock (mkBlockHeader 1 "" 0 bnfc 0 0 "" "" 0) [].

Definition transfer (from to : AccountID) (value tip gasPrice gasUnits nonce : Z) : BlockTx :=
  mkBlockTx 1 nonce to value tip [] gasPrice gasUnits from.

(** Scenario 2 of the specification: A pays B 100 with a tip of 10 and
    5 of gas, in a block of M. *)
Definition dbABM : Database :=
  ledgerOf [("A"%string, mkAccount 1000 0); ("B"%string, mkAccount 0 0);
            ("M"%string, mkAccount 0 0)] 1.
Definition txPay : BlockTx := transfer "A" "B" 100 10 1 5 1.

(** Scenario 1 of the specification: A already holds nonce 7 and submits
    nonce 5. *)
Definition dbNonce7 : Database :=
  ledgerOf [("A"%string, mkAccount 1000 7); ("B"%string, mkAccount 0 0)] 1.
Definition txStale : BlockTx := transfer "A" "B" 10 0 1 5 5.

(** A and B alone, for blocks that one of them mines. *)
Definition dbAB : Database :=
  ledgerOf [("A"%string, mkAccount 1000 0); ("B"%string, mkAccount 0 0)] 1.

(** A transfer whose value and tip add up to 2^64 + 1. *)
Definition txHuge : BlockTx := transfer "A" "B" (two64 - 1) 2 1 5 1.

(** A sender whose whole balance goes into gas, sending nothing. *)
Definition dbPoor : Database :=
  ledgerOf [("A"%string, mkAccount 5 0); ("B"%string, mkAccount 0 0);
            ("M"%string, mkAccount 0 0)] 1.
Definition txNothing : BlockTx := transfer "A" "B" 0 0 1 5 1.

(** A transaction whose signature cannot be recovered. *)
Definition txUnsigned : BlockTx := transfer "" "B" 100 10 1 5 1.

(** A chain of one block, mined by M, whose only transaction carries a
    nonce that A cannot use; genesis gives A 1000 and B 0. *)
Definition txNonceZero : BlockTx := transfer "A" "B" 10 0 1 5 0.
Definition blockOne : Block :=
  mkBlock (mkBlockHeader 1 "" 0 "M" 0 700 "" "" 0) [txNonceZero].
Definition genesisAB : Genesis :=
  mkGenesis 1 700 1 1 1 [("A"%string, 1000); ("B"%string, 0)].
Definition dbGenesisAB : Database :=
  mkDatabase genesisAB blockOne
    (<["B"%string := mkAccount 0 0]> (<["A"%string := mkAccount 1000 0]> ∅)).

(** A cursor that serves one good block and then fails to read the next. *)
Definition brokenStore : ScriptIter :=
  mkScriptIter [(blockOne, None, false);
                (zeroBlock, Some (ErrExternal "read error"), false)] false.

(** Three peers, the second of which the node already knows. *)
Definition peerA : Peer := mkPeer "a:9080".
Definition peerB : Peer := mkPeer "b:9080".
Definition peerC : Peer := mkPeer "c:9080".
Definition knowsB : World (gset string) := mkWorld {["b:9080"%string]} [] [].

(** Scenario 4 of the specification: A sends to itself. *)
Definition txSelf : BlockTx := transfer "A" "A" 10 0 1 2 1.

(** A transfer of B, which holds nothing. *)
Definition txFromB : BlockTx := transfer "B" "A" 1 0 1 5 1.

(** ** The remaining methods of the database *)

(** [Database.Remove] *)
Definition Remove (db : Database) (accountID : AccountID) : Database :=
  setAccounts db (delete accountID (accounts db)).

(** [Database.CopyAccounts]: a fresh map filled entry by entry. *)
Definition CopyAccounts (db : Database) : gmap AccountID Account :=
  map_fold (fun accountID account accounts => <[accountID := account]> accounts)
    ∅ (accounts db).

(** [Database.UpdateLatestBlock] and [Database.LatestBlock] *)
Definition UpdateLatestBlock (db : Database) (block : Block) : Database :=
  mkDatabase (genesis db) block (accounts db).

Definition LatestBlock (db : Database) : Block := latestBlock db.

Section Resetting.

Variable ToAccountID : string -> Error + AccountID.

(** The storage behind the database, of which [Reset] is the one method
    used here. *)
Variable Store : Type.
Variable storageReset : Store -> Store * option Error.

(** The genesis loop of [Reset], which works on the map of the database
    itself: when a key does not parse, the accounts written so far stay. *)
Fixpoint seedGenesis (balances : list (string * Z)) (m : gmap AccountID Account)
    : gmap AccountID Account * option Error :=
  match balances with
  | [] => (m, None)
  | (accountStr, balance) :: rest =>
    match ToAccountID accountStr with
    | inl err => (m, Some err)
    | inr accountID => seedGenesis rest (<[accountID := mkAccount balance 0]> m)
    end
  end.

(** [Database.Reset]: the database, the storage and the returned error.
    The error of [db.storage.Reset()] is not bound to anything. *)
Definition Reset (db : Database) (st : Store) : Database * Store * option Error :=
  let st := fst (storageReset st) in
  let db := mkDatabase (genesis db) zeroBlock (accounts db) in
  let db := setAccounts db ∅ in
  let '(m, err) := seedGenesis (Balances (genesis db)) (accounts db) in
  (setAccounts db m, st, err).

End Resetting.

Arguments Reset _ {Store} _ _ _.

(** [linked validate prev blocks]: each block passes the validation
    against the block before it, the first one against [prev]. *)
Fixpoint linked (validate : Block -> Block -> option Error) (prev : Block)
    (blocks : list Block) : Prop :=
  match blocks with
  | [] => True
  | block :: rest => validate block prev = None /\ linked validate block rest
  end.

(** The account ids that a block names: its beneficiary and, for each of
    its transactions, the recipient and the sender when it is recovered. *)
Definition involved (FromAccount : BlockTx -> string + AccountID) (block : Block)
    (k : AccountID) : Prop :=
  k = BeneficiaryID (Header block) \/
  exists tx, In tx (Trans block) /\ (k = ToID tx \/ FromAccount tx = inr k).

(** A store without blocks: the first [Next] already reports the end. *)
Definition emptyStore : ScriptIter := storedChain [].

(** A storage whose reset fails and leaves it as it is. *)
Definition stuckReset (st : list Block) : list Block * option Error :=
  (st, Some (ErrExternal "cannot remove the block files")).

(** Block validation that refuses everything. *)
Definition neverValid (block latest : Block) : option Error :=
  Some (ErrExternal "refused").

(** A second block for the chain of [blockOne], paying B from A. *)
Definition blockTwo : Block :=
  mkBlock (mkBlockHeader 2 "" 0 "M" 0 700 "" "" 0) [transfer "A" "B" 100 10 1 5 1].

(** ** The worker: signals *)

(** An argument of a call of [bw.evHandler]. *)
Inductive Arg :=
| ArgStr (s : string)
| ArgNum (z : Z)
| ArgErr (e : Error)
| ArgPeer (peer : Peer)
| ArgPeers (peers : list Peer).

(** A call of [bw.evHandler]: the format and its arguments. *)
Record Note := mkNote {
  noteFormat : string;
  noteArgs : list Arg
}.

(** [maxTxShareRequests] *)
Definition maxTxShareRequests : nat := 100.

(** [select { case ch <- x: ... default: ... }] on a buffered channel
    that holds [ch] and has room for [capacity] values: the value is
    queued when there is room and dropped when there is none. *)
Definition offer {A} (capacity : nat) (x : A) (ch : list A) : list A * bool :=
  if (length ch <? capacity)%nat then (ch ++ [x], true) else (ch, false).

Section Signals.

(** [Tx], the transactions handed to the share operation. *)
Variable Tx : Type.

(** The channels of [bcWorker] with what they hold, oldest first, as
    [runBCWorker] makes them: room for one value each, and for
    [maxTxShareRequests] batches in [txSharing]; next to them the notes
    handed to [evHandler]. *)
Record Signals := mkSignals {
  peerUpdates : list bool;
  startMining : list bool;
  cancelMining : list bool;
  txSharing : list (list Tx);
  sigNotes : list Note
}.

Definition sigNote (format : string) (w : Signals) : Signals :=
  mkSignals (peerUpdates w) (startMining w) (cancelMining w) (txSharing w)
    (sigNotes w ++ [mkNote format []]).

(** [bcWorker.signalPeerUpdates] *)
Definition signalPeerUpdates (w : Signals) : Signals :=
  let w := mkSignals (fst (offer 1 true (peerUpdates w))) (startMining w) (cancelMining w)
             (txSharing w) (sigNotes w) in
  sigNote "bcWorker: signalPeerUpdates: peer updates signaled" w.

(** [bcWorker.signalStartMining] *)
Definition signalStartMining (w : Signals) : Signals :=
  let w := mkSignals (peerUpdates w) (fst (offer 1 true (startMining w))) (cancelMining w)
             (txSharing w) (sigNotes w) in
  sigNote "bcWorker: signalStartMining: mining signaled" w.

(** [bcWorker.signalCancelMining] *)
Definition signalCancelMining (w : Signals) : Signals :=
  let w := mkSignals (peerUpdates w) (startMining w) (fst (offer 1 true (cancelMining w)))
             (txSharing w) (sigNotes w) in
  sigNote "bcWorker: signalCancelMining: cancel mining signaled" w.

(** [bcWorker.signalShareTransactions] *)
Definition signalShareTransactions (txs : list Tx) (w : Signals) : Signals :=
  let '(ch, sent) := offer maxTxShareRequests txs (txSharing w) in
  let w := mkSignals (peerUpdates w) (startMining w) (cancelMining w) ch (sigNotes w) in
  if sent then sigNote "bcWorker: signalShareTransactions: share Tx signaled" w
  else sigNote "bcWorker: signalShareTransactions: queue full, transactions won't be shared." w.

End Signals.

Arguments mkSignals {Tx} _ _ _ _ _.
Arguments peerUpdates {Tx} _.
Arguments startMining {Tx} _.
Arguments cancelMining {Tx} _.
Arguments txSharing {Tx} _.
Arguments sigNotes {Tx} _.
Arguments signalPeerUpdates {Tx} _.
Arguments signalStartMining {Tx} _.
Arguments signalCancelMining {Tx} _.
Arguments signalShareTransactions {Tx} _ _.

(** ** The worker: requests to peers *)

(** A request as [http.NewRequest] builds it. *)
Record Request := mkRequest {
  reqMethod : string;
  reqURL : string;
  reqBody : option string
}.

(** A response: the status code and what reading the body gives. *)
Record Response := mkResponse {
  StatusCode : Z;
  Body : Error + string
}.

(** [PeerStatus]: what a peer reports about itself. *)
Record PeerStatus := mkPeerStatus {
  LatestBlockNumber : Z;
  KnownPeers : list Peer
}.

Definition zeroPeerStatus : PeerStatus := mkPeerStatus 0 [].

(** [fmt.Sprintf(bw.baseURL, host)] with the [baseURL] that [runBCWorker]
    sets, ["http://%s/v1/node"]. *)
Definition baseURL (host : string) : string := "http://" +:+ host +:+ "/v1/node".

Section Requests.

(** The network as [http.Client] reaches it. *)
Variable Net : Type.
Variable clientDo : Net -> Request -> Net * (Error + Response).

(** The error with which [http.NewRequest] refuses a method and a URL. *)
Variable requestError : string -> string -> option Error.

(** What leaves the node: the network and the requests handed to it. *)
Record Wire := mkWire {
  wireNet : Net;
  wireSent : list Request
}.

Definition NewRequest (method url : string) (body : option string) : Error + Request :=
  match requestError method url with
  | Some err => inl err
  | None => inr (mkRequest method url body)
  end.

(** [send]. [marshal] and [decode] stand for [json.Marshal] and for
    [json.NewDecoder(resp.Body).Decode] at the types of the two data
    arguments; [dataRecv] holds the value behind the pointer, [None] for a
    nil pointer, and comes back as the call leaves it. *)
Definition send {A B : Type} (marshal : A -> Error + string)
    (decode : string -> B -> B * option Error)
    (method url : string) (dataSend : option A) (dataRecv : option B) (w : Wire)
    : Wire * option B * option Error :=
  let req :=
    match dataSend with
    | Some d =>
      match marshal d with
      | inl err => inl err
      | inr data => NewRequest method url (Some data)
      end
    | None => NewRequest method url None
    end in
  match req with
  | inl err => (w, dataRecv, Some err)
  | inr req =>
    let '(net, resp) := clientDo (wireNet w) req in
    let w := mkWire net (wireSent w ++ [req]) in
    match resp with
    | inl err => (w, dataRecv, Some err)
    | inr resp =>
      if Z.eqb (StatusCode resp) 204 then (w, dataRecv, None)
      else if negb (Z.eqb (StatusCode resp) 200) then
        match Body resp with
        | inl err => (w, dataRecv, Some err)
        | inr msg => (w, dataRecv, Some (ErrExternal msg))
        end
      else
        match dataRecv with
        | Some r =>
          match Body resp with
          | inl err => (w, dataRecv, Some err)
          | inr text =>
            let '(r, err) := decode text r in
            (w, Some r, err)
          end
        | None => (w, dataRecv, None)
        end
    end
  end.

End Requests.

Arguments mkWire {Net} _ _.
Arguments wireNet {Net} _.
Arguments wireSent {Net} _.
Arguments send {Net} _ _ {A B} _ _ _ _ _ _ _.

(** [Accepted step s l s']: from [s], [step] takes every element of [l]
    in turn without an error and leaves [s']. *)
Inductive Accepted {S X : Type} (step : S -> X -> S * option Error)
    : S -> list X -> S -> Prop :=
| Accepted_nil s : Accepted step s [] s
| Accepted_cons s x s1 rest s2 :
    step s x = (s1, None) ->
    Accepted step s1 rest s2 ->
    Accepted step s (x :: rest) s2.

(** The note that stands for an event of [addNewPeers]. *)
Definition noteOfEvent (e : Event) : Note :=
  match e with
  | EvStarted => mkNote "bcWorker: runPeerUpdatesOperation: addNewPeers: started" []
  | EvCompleted => mkNote "bcWorker: runPeerUpdatesOperation: addNewPeers: completed" []
  | EvAddingPeer peer =>
    mkNote "bcWorker: runPeerUpdatesOperation: addNewPeers: add peer nodes: adding peer-node %s"
      [ArgPeer peer]
  end.

(** What [send] is given for a nil [dataSend]; it is never marshalled. *)
Definition noData (_ : unit) : Error + string := inr ""%string.

(** What [send] is given for a nil [dataRecv]; nothing is decoded. *)
Definition noReply (_ : string) (u : unit) : unit * option Error := (u, None).

(** What the peer operations of the worker rest on and the sources at
    hand do not hold: the node state behind [bw.state] with its methods,
    the block and transaction types of the worker's package, the error
    helpers, the network behind [http.Client] and the JSON codecs. *)
Class PeerEnv := {
  (** [bw.state] and the methods of it that the peer operations call *)
  State : Type;
  addPeerNode : State -> Peer -> State * option Error;
  CopyKnownPeers : State -> list Peer;
  (** [Block] and [Tx] of the worker's package, and what is read of a block *)
  WBlock : Type;
  Tx : Type;
  zeroWBlock : WBlock;
  headerNumber : WBlock -> Z;
  parentHash : WBlock -> string;
  blockHash : WBlock -> string;
  numTrans : WBlock -> Z;
  CopyLatestBlock : State -> WBlock;
  WriteNextBlock : State -> WBlock -> State * option Error;
  Truncate : State -> State;
  (** [errors.Is(err, ErrChainForked)] and [err.Error()] *)
  isChainForked : Error -> bool;
  errorText : Error -> string;
  (** the network, [http.NewRequest] and the JSON codecs of the payloads *)
  Net : Type;
  clientDo : Net -> Request -> Net * (Error + Response);
  requestError : string -> string -> option Error;
  marshalBlock : WBlock -> Error + string;
  marshalTxs : list Tx -> Error + string;
  decodeStatus : string -> PeerStatus -> PeerStatus * option Error;
  decodeBlocks : string -> list WBlock -> list WBlock * option Error;
  decodeNext : string -> string * WBlock -> (string * WBlock) * option Error
}.

Section PeerOperations.

Context `{PeerEnv}.

(** What a run of the worker can be observed by: the node state, the
    peers handed to [addPeerNode], the wire and the notes. *)
Record Node := mkNode {
  nState : State;
  nCalls : list Peer;
  nWire : Wire Net;
  nNotes : list Note
}.

Definition note (format : string) (args : list Arg) (n : Node) : Node :=
  mkNode (nState n) (nCalls n) (nWire n) (nNotes n ++ [mkNote format args]).

Definition setWire (n : Node) (w : Wire Net) : Node :=
  mkNode (nState n) (nCalls n) w (nNotes n).

Definition setState (n : Node) (s : State) : Node :=
  mkNode s (nCalls n) (nWire n) (nNotes n).

(** The [send] of [sendBlockToPeers] for one peer. *)
Definition postBlock (block : WBlock) (w : Wire Net) (peer : Peer)
    : Wire Net * option Error :=
  let url := baseURL (Host peer) +:+ "/block/next" in
  let '(w, _, err) :=
    send clientDo requestError marshalBlock decodeNext "POST" url (Some block)
      (Some (""%string, zeroWBlock)) w in
  (w, err).

Fixpoint sendBlockLoop (block : WBlock) (peers : list Peer) (n : Node)
    : Node * option Error :=
  match peers with
  | [] => (n, None)
  | peer :: rest =>
    let '(w, err) := postBlock block (nWire n) peer in
    let n := setWire n w in
    match err with
    | Some err => (n, Some (ErrExternal (Host peer +:+ ": " +:+ errorText err)))
    | None =>
      sendBlockLoop block rest
        (note "bcWorker: sendBlockToPeers: **********: %s: SENT" [ArgPeer peer] n)
    end
  end.

(** [bcWorker.sendBlockToPeers] *)
Definition sendBlockToPeers (block : WBlock) (n : Node) : Node * option Error :=
  let n := note "bcWorker: sendBlockToPeers: **********: started" [] n in
  let '(n, err) := sendBlockLoop block (CopyKnownPeers (nState n)) n in
  (note "bcWorker: sendBlockToPeers: **********: completed" [] n, err).

(** The [send] of [runShareTxOperation] for one peer. *)
Definition postTxs (txs : list Tx) (w : Wire Net) (peer : Peer) : Wire Net * option Error :=
  let url := baseURL (Host peer) +:+ "/tx/add" in
  let '(w, _, err) :=
    send clientDo requestError marshalTxs noReply "POST" url (Some txs) None w in
  (w, err).

Fixpoint shareTxLoop (txs : list Tx) (peers : list Peer) (n : Node) : Node :=
  match peers with
  | [] => n
  | peer :: rest =>
    let '(w, err) := postTxs txs (nWire n) peer in
    let n := setWire n w in
    let n :=
      match err with
      | Some err => note "bcWorker: runShareTxOperation: WARNING: %s" [ArgErr err] n
      | None => n
      end in
    shareTxLoop txs rest n
  end.

(** [bcWorker.runShareTxOperation] *)
Definition runShareTxOperation (txs : list Tx) (n : Node) : Node :=
  let n := note "bcWorker: runShareTxOperation: started" [] n in
  let n := shareTxLoop txs (CopyKnownPeers (nState n)) n in
  note "bcWorker: runShareTxOperation: completed" [] n.

(** The [send] of [queryPeerStatus]. *)
Definition getStatus (w : Wire Net) (peer : Peer)
    : Wire Net * option PeerStatus * option Error :=
  send clientDo requestError noData decodeStatus "GET"
    (baseURL (Host peer) +:+ "/status") None (Some zeroPeerStatus) w.

(** [bcWorker.queryPeerStatus] *)
Definition queryPeerStatus (peer : Peer) (n : Node) : Node * (PeerStatus * option Error) :=
  let n := note "bcWorker: runPeerUpdatesOperation: queryPeerStatus: started: %s"
             [ArgPeer peer] n in
  let completed :=
    note "bcWorker: runPeerUpdatesOperation: queryPeerStatus: completed: %s" [ArgPeer peer] in
  let '(w, ps, err) := getStatus (nWire n) peer in
  let ps := default zeroPeerStatus ps in
  let n := setWire n w in
  match err with
  | Some err => (completed n, (zeroPeerStatus, Some err))
  | None =>
    let n :=
      note ("bcWorker: runPeerUpdatesOperation: queryPeerStatus: " +:+
            "peer-node[%s]: latest-blknum[%d]: peer-list[%s]")
        [ArgPeer peer; ArgNum (LatestBlockNumber ps); ArgPeers (KnownPeers ps)] n in
    (completed n, (ps, None))
  end.

(** [bw.addNewPeers] run on the node: the events come back as notes. *)
Definition callAddNewPeers (knownPeers : list Peer) (n : Node) : Node * option Error :=
  let '(w, err) := addNewPeers addPeerNode knownPeers (mkWorld (nState n) (nCalls n) []) in
  (mkNode (wState w) (wCalls w) (nWire n) (nNotes n ++ map noteOfEvent (wLog w)), err).

(** The [send] of [writePeerBlocks]: the blocks from number [from] on. *)
Definition getBlocks (from : Z) (w : Wire Net) (peer : Peer)
    : Wire Net * option (list WBlock) * option Error :=
  send clientDo requestError noData decodeBlocks "GET"
    (baseURL (Host peer) +:+ "/block/list/" +:+ pretty from +:+ "/latest") None (Some []) w.

Definition writeBlock (n : Node) (block : WBlock) : Node * option Error :=
  let n :=
    note ("bcWorker: runPeerUpdatesOperation: writePeerBlocks: **********: " +:+
          "prevBlk[%s]: newBlk[%s]: numTrans[%d]")
      [ArgStr (parentHash block); ArgStr (blockHash block); ArgNum (numTrans block)] n in
  let '(s, err) := WriteNextBlock (nState n) block in
  (setState n s, err).

Fixpoint writeBlocksLoop (blocks : list WBlock) (n : Node) : Node * option Error :=
  match blocks with
  | [] => (n, None)
  | block :: rest =>
    let '(n, err) := writeBlock n block in
    match err with
    | Some err => (n, Some err)
    | None => writeBlocksLoop rest n
    end
  end.

(** [bcWorker.writePeerBlocks] *)
Definition writePeerBlocks (peer : Peer) (n : Node) : Node * option Error :=
  let n := note "bcWorker: runPeerUpdatesOperation: writePeerBlocks: **********: started: %s"
             [ArgPeer peer] n in
  let completed :=
    note "bcWorker: runPeerUpdatesOperation: writePeerBlocks: **********: completed: %s"
      [ArgPeer peer] in
  let from := add64 (headerNumber (CopyLatestBlock (nState n))) 1 in
  let '(w, blocks, err) := getBlocks from (nWire n) peer in
  let blocks := default [] blocks in
  let n := setWire n w in
  match err with
  | Some err => (completed n, Some err)
  | None =>
    let n :=
      note "bcWorker: runPeerUpdatesOperation: writePeerBlocks: **********: found blocks[%d]"
        [ArgNum (Z.of_nat (length blocks))] n in
    let '(n, err) := writeBlocksLoop blocks n in
    (completed n, err)
  end.

(** The body of the loop of [runPeerUpdatesOperation] for one peer; the
    flag tells that the loop is left by [break]. *)
Definition peerUpdate (peer : Peer) (n : Node) : Node * bool :=
  (* Retrieve the status of this peer. *)
  let '(n, (peerStatus, err)) := queryPeerStatus peer n in
  let n :=
    match err with
    | Some err =>
      note "bcWorker: runPeerUpdatesOperation: queryPeerStatus: %s: ERROR: %s"
        [ArgStr (Host peer); ArgErr err] n
    | None => n
    end in
  (* Add new peers to this nodes list. *)
  let '(n, err) := callAddNewPeers (KnownPeers peerStatus) n in
  let n :=
    match err with
    | Some err =>
      note "bcWorker: runPeerUpdatesOperation: addNewPeers: %s: ERROR: %s"
        [ArgStr (Host peer); ArgErr err] n
    | None => n
    end in
  (* If this peer has blocks we don't have, we need to add them. *)
  if Z.ltb (headerNumber (CopyLatestBlock (nState n))) (LatestBlockNumber peerStatus) then
    let n :=
      note "bcWorker: runPeerUpdatesOperation: writePeerBlocks: %s: latestBlockNumber[%d]"
        [ArgStr (Host peer); ArgNum (LatestBlockNumber peerStatus)] n in
    let '(n, err) := writePeerBlocks peer n in
    match err with
    | Some err =>
      let n :=
        note "bcWorker: runPeerUpdatesOperation: writePeerBlocks: %s: ERROR %s"
          [ArgStr (Host peer); ArgErr err] n in
      (* We need to correct the fork in our chain. *)
      if isChainForked err then (setState n (Truncate (nState n)), true)
      else (n, false)
    | None => (n, false)
    end
  else (n, false).

Fixpoint peerUpdatesLoop (peers : list Peer) (n : Node) : Node :=
  match peers with
  | [] => n
  | peer :: rest =>
    let '(n, stop) := peerUpdate peer n in
    if stop then n else peerUpdatesLoop rest n
  end.

(** [bcWorker.runPeerUpdatesOperation] *)
Definition runPeerUpdatesOperation (n : Node) : Node :=
  let n := note "bcWorker: runPeerUpdatesOperation: started" [] n in
  let n := peerUpdatesLoop (CopyKnownPeers (nState n)) n in
  note "bcWorker: runPeerUpdatesOperation: completed" [] n.

End PeerOperations.

(** ** A small network for the examples *)

#[export] Instance Peer_eq_dec : EqDecision Peer.
Proof. solve_decision. Defined.

(** A node state: the known peers and the number of the latest block. *)
Record DemoState := mkDemoState {
  dsPeers : list Peer;
  dsHeight : Z
}.

Definition demoAddPeerNode (st : DemoState) (peer : Peer) : DemoState * option Error :=
  if decide (peer ∈ dsPeers st) then (st, Some (ErrExternal "peer already exists"))
  else (mkDemoState (dsPeers st ++ [peer]) (dsHeight st), None).

(** Blocks are their numbers; a block is written when it is the next one. *)
Definition demoWriteNextBlock (st : DemoState) (block : Z) : DemoState * option Error :=
  if Z.eqb block (dsHeight st + 1) then (mkDemoState (dsPeers st) block, None)
  else (st, Some (ErrExternal "blockchain forked, start resync")).

Definition demoTruncate (st : DemoState) : DemoState :=
  mkDemoState (dsPeers st) (dsHeight st - 1).

Definition demoIsChainForked (e : Error) : bool :=
  match e with
  | ErrExternal msg => String.eqb msg "blockchain forked, start resync"
  | _ => false
  end.

Definition demoErrorText (e : Error) : string :=
  match e with
  | ErrExternal msg => msg
  | _ => "transaction invalid"
  end.

(** The host b:9080 is down; every other host answers 200 with the URL
    of the request as body. The network counts the requests it has seen. *)
Definition demoClientDo (net : nat) (req : Request) : nat * (Error + Response) :=
  (S net,
   if String.prefix "http://b:9080" (reqURL req)
   then inl (ErrExternal "connection refused")
   else inr (mkResponse 200 (inr (reqURL req)))).

(** Every peer reports block 2 and the peer c; every peer serves the
    blocks 1 and 3. *)
#[export] Instance demoEnv : PeerEnv := {|
  State := DemoState;
  addPeerNode := demoAddPeerNode;
  CopyKnownPeers := dsPeers;
  WBlock := Z;
  Tx := unit;
  zeroWBlock := 0;
  headerNumber := fun block => block;
  parentHash := fun block => pretty (block - 1);
  blockHash := fun block => pretty block;
  numTrans := fun _ => 0;
  CopyLatestBlock := dsHeight;
  WriteNextBlock := demoWriteNextBlock;
  Truncate := demoTruncate;
  isChainForked := demoIsChainForked;
  errorText := demoErrorText;
  Net := nat;
  clientDo := demoClientDo;
  requestError := fun _ _ => None;
  marshalBlock := fun block => inr (pretty block);
  marshalTxs := fun _ => inr "[]"%string;
  decodeStatus := fun _ _ => (mkPeerStatus 2 [peerC], None);
  decodeBlocks := fun _ _ => ([1; 3], None);
  decodeNext := fun _ r => (r, None)
|}.

(** A node at height 0 that knows a, b and c and has sent nothing. *)
Definition demoNode : Node :=
  mkNode (mkDemoState [peerA; peerB; peerC] 0) [] (mkWire 0%nat []) [].

(** A client whose every answer is 204 with a body. *)
Definition noContentDo (net : nat) (req : Request) : nat * (Error + Response) :=
  (S net, inr (mkResponse 204 (inr "ignored"%string))).

(** Signals with a start of mining already pending. *)
Definition miningPending : Signals unit := mkSignals [] [true] [] [] [].

(** A chain of one block, mined by M, with two transactions of A: the
    first carries a nonce that A cannot use, the second pays B 100 with a
    tip of 10. Below, the database as the genesis loop leaves it for this
    chain, and the database after the two calls of [ApplyTransaction]
    and the mining reward. *)
Definition blockMixed : Block :=
  mkBlock (mkBlockHeader 1 "" 0 "M" 0 700 "" "" 0) [txNonceZero; txPay].
Definition dbGenesisMixed : Database :=
  mkDatabase genesisAB blockMixed
    (<["B"%string := mkAccount 0 0]> (<["A"%string := mkAccount 1000 0]> ∅)).
Definition dbMixedReplayed : Database :=
  ApplyMiningReward
    (fst (ApplyTransaction sigFromAccount
            (fst (ApplyTransaction sigFromAccount dbGenesisMixed blockMixed txNonceZero))
            blockMixed txPay))
    blockMixed.

(** The genesis of [genesisAB] with its balances visited the other way
    round. *)
Definition genesisBA : Genesis :=
  mkGenesis 1 700 1 1 1 [("B"%string, 0); ("A"%string, 1000)].

(** No id is given two different balances: two keys that parse to the
    same id carry the same balance. *)
Definition oneBalancePerId (ToAccountID : string -> Error + AccountID)
    (balances : list (string * Z)) : Prop :=
  forall s b s' b' id,
    In (s, b) balances -> In (s', b') balances ->
    ToAccountID s = inr id -> ToAccountID s' = inr id ->
    b = b'.

(** * Properties *)

(** ** Machine arithmetic *)

Lemma wrap64_range z : is_u64 (wrap64 z).
Proof. unfold is_u64, wrap64, two64. apply Z.mod_pos_bound. lia. Qed.

Lemma wrap64_small z : is_u64 z -> wrap64 z = z.
Proof. unfold is_u64, wrap64. intros Hz. apply Z.mod_small. exact Hz. Qed.

Lemma add64_exact a b : 0 <= a -> 0 <= b -> a + b < two64 -> add64 a b = a + b.
Proof. intros Ha Hb Hs. unfold add64. apply wrap64_small. unfold is_u64. lia. Qed.

Lemma sub64_exact a b : 0 <= b <= a -> a < two64 -> sub64 a b = a - b.
Proof. intros Hb Ha. unfold sub64. apply wrap64_small. unfold is_u64. lia. Qed.

Lemma mul64_range a b : is_u64 (mul64 a b).
Proof. apply wrap64_range. Qed.

(** ** Reading the account map *)

Lemma acct_insert (m : gmap AccountID Account) k a k' :
  acct (<[k := a]> m) k' = if decide (k = k') then a else acct m k'.
Proof. unfold acct. rewrite lookup_insert. case_decide; reflexivity. Qed.

Lemma acct_insert_eq (m : gmap AccountID Account) k a : acct (<[k := a]> m) k = a.
Proof. rewrite acct_insert. case_decide; congruence. Qed.

Lemma acct_insert_ne (m : gmap AccountID Account) k a k' :
  k <> k' -> acct (<[k := a]> m) k' = acct m k'.
Proof. intros Hne. rewrite acct_insert. case_decide; congruence. Qed.

Lemma gasFeeOf_bounds tx from :
  0 <= Balance from -> 0 <= gasFeeOf tx from <= Balance from.
Proof.
  intros Hb. unfold gasFeeOf.
  pose proof (mul64_range (GasPrice tx) (GasUnits tx)) as [Hlo _].
  destruct (Z.ltb_spec (Balance from) (mul64 (GasPrice tx) (GasUnits tx))); lia.
Qed.

Lemma gasFeeOf_min tx from :
  gasFeeOf tx from = Z.min (mul64 (GasPrice tx) (GasUnits tx)) (Balance from).
Proof.
  unfold gasFeeOf.
  destruct (Z.ltb_spec (Balance from) (mul64 (GasPrice tx) (GasUnits tx))); lia.
Qed.

Lemma postGasBalance_exact tx from :
  is_u64 (Balance from) ->
  postGasBalance tx from = Balance from - gasFeeOf tx from.
Proof.
  intros [Hlo Hhi]. unfold postGasBalance.
  pose proof (gasFeeOf_bounds tx from Hlo).
  apply sub64_exact; lia.
Qed.

(** ** The sum of all balances *)

Lemma totalBalance_insert_fresh (m : gmap AccountID Account) k a :
  m !! k = None -> totalBalance (<[k := a]> m) = Balance a + totalBalance m.
Proof.
  intros Hk. unfold totalBalance.
  apply (map_fold_insert_L (fun _ a s => Balance a + s)); [| exact Hk].
  intros; lia.
Qed.

Lemma totalBalance_delete (m : gmap AccountID Account) k a :
  m !! k = Some a -> totalBalance m = Balance a + totalBalance (delete k m).
Proof.
  intros Hk. unfold totalBalance.
  apply (map_fold_delete_L (fun _ a s => Balance a + s)); [| exact Hk].
  intros; lia.
Qed.

(** A write replaces the balance that a read of the key gave before. *)
Lemma totalBalance_insert (m : gmap AccountID Account) k a :
  totalBalance (<[k := a]> m) = totalBalance m - Balance (acct m k) + Balance a.
Proof.
  unfold acct. destruct (m !! k) as [a0 |] eqn:Hk; simpl.
  - rewrite <- insert_delete_eq.
    rewrite totalBalance_insert_fresh by apply lookup_delete_eq.
    rewrite (totalBalance_delete m k a0 Hk). lia.
  - rewrite totalBalance_insert_fresh by exact Hk. lia.
Qed.

(** ** The account ledger *)

(** Reads of a map built by writes: split on which keys coincide. *)
Ltac solve_acct :=
  rewrite ?acct_insert; repeat case_decide; simplify_eq; try reflexivity; try congruence.

Section LedgerFacts.

Variable FromAccount : BlockTx -> string + AccountID.

(** The shape of a call whose sender is recovered: the gas charge is
    written, then the checks decide. *)
Lemma ApplyTransaction_recovered db block tx fromID :
  FromAccount tx = inr fromID ->
  let from := acct (accounts db) fromID in
  let bnfcID := BeneficiaryID (Header block) in
  let from1 := withBalance from (postGasBalance tx from) in
  let bnfc1 := withBalance (acct (accounts db) bnfcID)
                 (add64 (Balance (acct (accounts db) bnfcID)) (gasFeeOf tx from)) in
  let charged := <[bnfcID := bnfc1]> (<[fromID := from1]> (accounts db)) in
  ApplyTransaction FromAccount db block tx =
    match accountingChecks db fromID from1 tx with
    | Some err => (setAccounts db charged, Some err)
    | None =>
      let from2 := mkAccount (sub64 (sub64 (Balance from1) (Value tx)) (Tip tx)) (TxNonce tx) in
      let to2 := withBalance (acct (accounts db) (ToID tx))
                   (add64 (Balance (acct (accounts db) (ToID tx))) (Value tx)) in
      let bnfc2 := withBalance bnfc1 (add64 (Balance bnfc1) (Tip tx)) in
      (setAccounts db (<[bnfcID := bnfc2]> (<[ToID tx := to2]> (<[fromID := from2]> charged))),
       None)
    end.
Proof.
  intros Hfrom. unfold ApplyTransaction. rewrite Hfrom. cbv zeta.
  fold (postGasBalance tx (acct (accounts db) fromID)).
  destruct (accountingChecks _ _ _ _); reflexivity.
Qed.

(** What the checks passing means, read off the four conditions. *)
Lemma accountingChecks_None db fromID from tx :
  accountingChecks db fromID from tx = None <->
  ChainID tx = GenChainID (genesis db) /\
  fromID <> ToID tx /\
  Nonce from < TxNonce tx /\
  Balance from <> 0 /\
  add64 (Value tx) (Tip tx) <= Balance from.
Proof.
  unfold accountingChecks.
  destruct (Z.eqb_spec (ChainID tx) (GenChainID (genesis db))); simpl;
    [| split; [discriminate | tauto]].
  case_bool_decide; [split; [discriminate | tauto] |].
  destruct (Z.leb_spec (TxNonce tx) (Nonce from)); [split; [discriminate | lia] |].
  destruct (Z.eqb_spec (Balance from) 0); simpl; [split; [discriminate | tauto] |].
  destruct (Z.ltb_spec (Balance from) (add64 (Value tx) (Tip tx)));
    [split; [discriminate | lia] |].
  split; [intros _; repeat split; auto; lia | reflexivity].
Qed.

(** The last check is the only one that answers with [ErrInsufficientFunds]. *)
Lemma accountingChecks_insufficient db fromID from tx :
  ChainID tx = GenChainID (genesis db) ->
  fromID <> ToID tx ->
  Nonce from < TxNonce tx ->
  accountingChecks db fromID from tx =
    if Z.eqb (Balance from) 0 || Z.ltb (Balance from) (add64 (Value tx) (Tip tx))
    then Some (ErrInsufficientFunds (Balance from) (add64 (Value tx) (Tip tx)))
    else None.
Proof.
  intros Hchain Hself Hnonce. unfold accountingChecks.
  destruct (Z.eqb_spec (ChainID tx) (GenChainID (genesis db))); [simpl | contradiction].
  case_bool_decide; [contradiction |].
  destruct (Z.leb_spec (TxNonce tx) (Nonce from)); [lia | reflexivity].
Qed.

(** X1: a successful call between three different accounts: the sender
    pays gas, value and tip and takes the nonce of the transaction, the
    recipient receives the value, the beneficiary receives gas and tip,
    nobody else is touched. All arithmetic is the code's, modulo 2^64. *)
Lemma ApplyTransaction_success_distinct db block tx fromID :
  FromAccount tx = inr fromID ->
  let from := acct (accounts db) fromID in
  let to := acct (accounts db) (ToID tx) in
  let bnfcID := BeneficiaryID (Header block) in
  let bnfc := acct (accounts db) bnfcID in
  accountingChecks db fromID (withBalance from (postGasBalance tx from)) tx = None ->
  fromID <> bnfcID ->
  ToID tx <> bnfcID ->
  let post := accounts (fst (ApplyTransaction FromAccount db block tx)) in
  snd (ApplyTransaction FromAccount db block tx) = None /\
  acct post fromID =
    mkAccount (sub64 (sub64 (postGasBalance tx from) (Value tx)) (Tip tx)) (TxNonce tx) /\
  acct post (ToID tx) = mkAccount (add64 (Balance to) (Value tx)) (Nonce to) /\
  acct post bnfcID =
    mkAccount (add64 (add64 (Balance bnfc) (gasFeeOf tx from)) (Tip tx)) (Nonce bnfc) /\
  (forall k, k <> fromID -> k <> ToID tx -> k <> bnfcID ->
     acct post k = acct (accounts db) k).
Proof.
  intros Hfrom. cbv zeta. intros Hchecks Hfb Htb.
  pose proof (proj1 (accountingChecks_None _ _ _ _) Hchecks) as (_ & Hft & _).
  rewrite (ApplyTransaction_recovered _ _ _ _ Hfrom). cbv zeta.
  rewrite Hchecks. simpl.
  repeat split; [solve_acct .. | intros k Hk1 Hk2 Hk3; solve_acct].
Qed.

(** A call that fails a check, sender and beneficiary being different
    accounts: the gas charge moves from the one to the other and nothing
    else changes. *)
Lemma ApplyTransaction_failed_check_distinct db block tx fromID err :
  FromAccount tx = inr fromID ->
  let from := acct (accounts db) fromID in
  let bnfcID := BeneficiaryID (Header block) in
  let bnfc := acct (accounts db) bnfcID in
  accountingChecks db fromID (withBalance from (postGasBalance tx from)) tx = Some err ->
  fromID <> bnfcID ->
  let post := accounts (fst (ApplyTransaction FromAccount db block tx)) in
  snd (ApplyTransaction FromAccount db block tx) = Some err /\
  acct post fromID = mkAccount (postGasBalance tx from) (Nonce from) /\
  acct post bnfcID = mkAccount (add64 (Balance bnfc) (gasFeeOf tx from)) (Nonce bnfc) /\
  (forall k, k <> fromID -> k <> bnfcID -> acct post k = acct (accounts db) k).
Proof.
  intros Hfrom. cbv zeta. intros Hchecks Hfb.
  rewrite (ApplyTransaction_recovered _ _ _ _ Hfrom). cbv zeta.
  rewrite Hchecks. simpl.
  repeat split; [solve_acct .. | intros k Hk1 Hk2; solve_acct].
Qed.

(** X2: a failed check, sender and beneficiary being different accounts:
    the sender loses the smaller of the fee and its balance, and the
    beneficiary gains it, as long as the credit stays below 2^64. The fee
    is the product [GasPrice * GasUnits] as the code computes it, in
    [uint64]; it is the exact product whenever that is below 2^64. *)
Lemma ApplyTransaction_failed_check_gas_charge db block tx fromID err :
  wfAccounts (accounts db) ->
  FromAccount tx = inr fromID ->
  let from := acct (accounts db) fromID in
  let bnfcID := BeneficiaryID (Header block) in
  let bnfc := acct (accounts db) bnfcID in
  let charge := Z.min (mul64 (GasPrice tx) (GasUnits tx)) (Balance from) in
  accountingChecks db fromID (withBalance from (postGasBalance tx from)) tx = Some err ->
  fromID <> bnfcID ->
  Balance bnfc + charge < two64 ->
  let post := accounts (fst (ApplyTransaction FromAccount db block tx)) in
  acct post fromID = mkAccount (Balance from - charge) (Nonce from) /\
  acct post bnfcID = mkAccount (Balance bnfc + charge) (Nonce bnfc) /\
  (0 <= GasPrice tx -> 0 <= GasUnits tx -> GasPrice tx * GasUnits tx < two64 ->
   charge = Z.min (GasPrice tx * GasUnits tx) (Balance from)).
Proof.
  intros Hwf Hfrom. cbv zeta. intros Hchecks Hfb Hcredit.
  destruct (Hwf fromID) as [HA _].
  destruct (Hwf (BeneficiaryID (Header block))) as [[HM0 _] _].
  pose proof (gasFeeOf_bounds tx (acct (accounts db) fromID) (proj1 HA)) as Hg.
  destruct (ApplyTransaction_failed_check_distinct db block tx fromID err Hfrom Hchecks Hfb)
    as (_ & Hsender & Hbnfc & _).
  rewrite Hsender, Hbnfc, (postGasBalance_exact _ _ HA).
  split; [| split].
  - rewrite <- gasFeeOf_min. reflexivity.
  - rewrite <- gasFeeOf_min in *. rewrite add64_exact by lia. reflexivity.
  - intros Hp Hu Hfit. unfold mul64. rewrite wrap64_small; [reflexivity |].
    unfold is_u64. split; [apply Z.mul_nonneg_nonneg; assumption | exact Hfit].
Qed.

(** X3: between different accounts, and as long as no credit passes 2^64,
    a call moves balances and neither creates nor destroys any, whether
    it succeeds or fails. *)
Lemma ApplyTransaction_conserves_distinct db block tx fromID :
  wfAccounts (accounts db) ->
  wfTx tx ->
  FromAccount tx = inr fromID ->
  let from := acct (accounts db) fromID in
  let to := acct (accounts db) (ToID tx) in
  let bnfcID := BeneficiaryID (Header block) in
  let bnfc := acct (accounts db) bnfcID in
  fromID <> bnfcID ->
  ToID tx <> bnfcID ->
  Value tx + Tip tx < two64 ->
  Balance to + Value tx < two64 ->
  Balance bnfc + gasFeeOf tx from + Tip tx < two64 ->
  totalBalance (accounts (fst (ApplyTransaction FromAccount db block tx)))
    = totalBalance (accounts db).
Proof.
  intros Hwf (_ & [HV0 _] & [HT0 _] & _) Hfrom. cbv zeta. intros Hfb Htb Hvt Hto Hbn.
  destruct (Hwf fromID) as [[HA0 HA1] _].
  destruct (Hwf (ToID tx)) as [[HB0 _] _].
  destruct (Hwf (BeneficiaryID (Header block))) as [[HM0 _] _].
  pose proof (gasFeeOf_bounds tx (acct (accounts db) fromID) HA0) as Hg.
  pose proof (postGasBalance_exact tx (acct (accounts db) fromID) (conj HA0 HA1)) as Hpg.
  rewrite (ApplyTransaction_recovered _ _ _ _ Hfrom). cbv zeta.
  destruct (accountingChecks _ _ _ _) as [err |] eqn:Hchecks; simpl.
  - rewrite !totalBalance_insert. solve_acct. simpl.
    rewrite add64_exact by lia. lia.
  - apply accountingChecks_None in Hchecks as (_ & Hft & _ & _ & Hfunds).
    simpl in Hfunds. rewrite add64_exact in Hfunds by lia.
    rewrite !totalBalance_insert. solve_acct. simpl.
    rewrite (add64_exact (Balance (acct (accounts db) (BeneficiaryID (Header block)))))
      by lia.
    rewrite (add64_exact _ (Tip tx)) by lia.
    rewrite (add64_exact _ (Value tx)) by lia.
    rewrite (sub64_exact _ (Value tx)) by lia.
    rewrite (sub64_exact _ (Tip tx)) by lia.
    lia.
Qed.

(** No call lowers the nonce of any account. *)
Lemma ApplyTransaction_nonce_mono db block tx k :
  Nonce (acct (accounts db) k)
    <= Nonce (acct (accounts (fst (ApplyTransaction FromAccount db block tx))) k).
Proof.
  destruct (FromAccount tx) as [cause | fromID] eqn:Hfrom.
  - unfold ApplyTransaction. rewrite Hfrom. simpl. lia.
  - rewrite (ApplyTransaction_recovered _ _ _ _ Hfrom). cbv zeta.
    destruct (accountingChecks _ _ _ _) as [err |] eqn:Hchecks; simpl.
    + solve_acct; simpl; lia.
    + apply accountingChecks_None in Hchecks as (_ & _ & Hnonce & _).
      simpl in Hnonce. solve_acct; simpl; lia.
Qed.

Lemma applyAll_nonce_mono calls : forall db k,
  Nonce (acct (accounts db) k) <= Nonce (acct (accounts (fst (applyAll FromAccount db calls))) k).
Proof.
  induction calls as [| [block tx] rest IH]; intros db k; simpl; [lia |].
  pose proof (ApplyTransaction_nonce_mono db block tx k) as H1.
  destruct (ApplyTransaction FromAccount db block tx) as [db1 err] eqn:Hcall. simpl in H1.
  pose proof (IH db1 k) as H2.
  destruct (applyAll FromAccount db1 rest) as [db2 errs]. simpl in *. lia.
Qed.

(** A call succeeds only with a nonce above the one the sender holds. *)
Lemma ApplyTransaction_success_nonce db block tx fromID :
  FromAccount tx = inr fromID ->
  snd (ApplyTransaction FromAccount db block tx) = None ->
  Nonce (acct (accounts db) fromID) < TxNonce tx.
Proof.
  intros Hfrom. rewrite (ApplyTransaction_recovered _ _ _ _ Hfrom). cbv zeta.
  destruct (accountingChecks _ _ _ _) as [err |] eqn:Hchecks; simpl; [discriminate |].
  intros _. apply accountingChecks_None in Hchecks as (_ & _ & Hnonce & _).
  exact Hnonce.
Qed.

(** X4: when the sender is not the beneficiary of the block, a transaction
    that was applied shuts out every later transaction of that sender
    whose nonce is not larger, whatever is applied in between. *)
Lemma ApplyTransaction_no_replay_distinct db block tx fromID calls block' tx' :
  FromAccount tx = inr fromID ->
  fromID <> BeneficiaryID (Header block) ->
  snd (ApplyTransaction FromAccount db block tx) = None ->
  FromAccount tx' = inr fromID ->
  TxNonce tx' <= TxNonce tx ->
  let db1 := fst (ApplyTransaction FromAccount db block tx) in
  snd (ApplyTransaction FromAccount (fst (applyAll FromAccount db1 calls)) block' tx')
    <> None.
Proof.
  intros Hfrom Hfb Hok Hfrom' Hle db1 Hok'.
  assert (Hset : Nonce (acct (accounts db1) fromID) = TxNonce tx).
  { subst db1. revert Hok. rewrite (ApplyTransaction_recovered _ _ _ _ Hfrom). cbv zeta.
    destruct (accountingChecks _ _ _ _) as [err |] eqn:Hchecks; simpl; [discriminate |].
    intros _. apply accountingChecks_None in Hchecks as (_ & Hft & _).
    solve_acct. }
  pose proof (applyAll_nonce_mono calls db1 fromID) as Hmono.
  pose proof (ApplyTransaction_success_nonce _ _ _ _ Hfrom' Hok') as Hlt.
  lia.
Qed.

(** The gas debit never wraps: the fee is clamped to the balance first. *)
Lemma gas_debit_exact db tx fromID :
  wfAccounts (accounts db) ->
  is_u64 (Balance (acct (accounts db) fromID) - gasFeeOf tx (acct (accounts db) fromID)).
Proof.
  intros Hwf. destruct (Hwf fromID) as [[H0 H1] _].
  pose proof (gasFeeOf_bounds tx (acct (accounts db) fromID) H0). unfold is_u64. lia.
Qed.

(** X5: as long as [Value + Tip] itself stays below 2^64, no operation on a
    balance has a negative exact result. *)
Lemma balanceOps_nonneg db block tx :
  wfAccounts (accounts db) ->
  wfTx tx ->
  Value tx + Tip tx < two64 ->
  Forall (fun z => 0 <= z) (balanceOps FromAccount db block tx).
Proof.
  intros Hwf (_ & [HV0 _] & [HT0 _] & _) Hvt. unfold balanceOps.
  destruct (FromAccount tx) as [cause | fromID]; [constructor |]. cbv zeta.
  destruct (Hwf fromID) as [[HA0 HA1] _].
  destruct (Hwf (ToID tx)) as [[HB0 _] _].
  destruct (Hwf (BeneficiaryID (Header block))) as [[HM0 _] _].
  pose proof (gasFeeOf_bounds tx (acct (accounts db) fromID) HA0) as Hg.
  pose proof (wrap64_range (Balance (acct (accounts db) (BeneficiaryID (Header block)))
                            + gasFeeOf tx (acct (accounts db) fromID))) as [Hc0 _].
  destruct (accountingChecks _ _ _ _) as [err |] eqn:Hchecks.
  - repeat constructor; lia.
  - apply accountingChecks_None in Hchecks as (_ & _ & _ & _ & Hfunds).
    simpl in Hfunds. rewrite add64_exact in Hfunds by lia.
    rewrite (sub64_exact _ (gasFeeOf _ _)) in Hfunds by lia.
    simpl. rewrite (sub64_exact _ (gasFeeOf _ _)) by lia.
    rewrite (sub64_exact _ (Value tx)) by lia.
    unfold add64 at 1.
    repeat constructor; lia.
Qed.

(** C6, amended: for a transaction that passes recovery and the chain
    id, self-transfer and nonce checks, and whose [Value + Tip] is below
    2^64, [ApplyTransaction] fails with the insufficient-funds error
    exactly when the sender's balance after the gas debit is zero or is
    below [Value + Tip]; it succeeds exactly when that balance is not
    zero and at least [Value + Tip]. *)
Theorem ApplyTransaction_insufficient_funds_iff db block tx fromID :
  FromAccount tx = inr fromID ->
  ChainID tx = GenChainID (genesis db) ->
  fromID <> ToID tx ->
  Nonce (acct (accounts db) fromID) < TxNonce tx ->
  0 <= Value tx ->
  0 <= Tip tx ->
  Value tx + Tip tx < two64 ->
  let postGas := postGasBalance tx (acct (accounts db) fromID) in
  (snd (ApplyTransaction FromAccount db block tx)
     = Some (ErrInsufficientFunds postGas (Value tx + Tip tx)) <->
   (postGas = 0 \/ postGas < Value tx + Tip tx)) /\
  (snd (ApplyTransaction FromAccount db block tx) = None <->
     (postGas <> 0 /\ Value tx + Tip tx <= postGas)) /\
  (forall err, snd (ApplyTransaction FromAccount db block tx) = Some err ->
     err = ErrInsufficientFunds postGas (Value tx + Tip tx)).
Proof.
  intros Hfrom Hchain Hself Hnonce HV HT Hvt. cbv zeta.
  rewrite (ApplyTransaction_recovered _ _ _ _ Hfrom). cbv zeta.
  rewrite accountingChecks_insufficient by assumption. simpl.
  rewrite add64_exact by assumption.
  destruct (Z.eqb_spec (postGasBalance tx (acct (accounts db) fromID)) 0) as [Hz | Hz];
    simpl.
  - rewrite Hz. repeat split; try tauto; try discriminate; try lia; congruence.
  - destruct (Z.ltb_spec (postGasBalance tx (acct (accounts db) fromID))
               (Value tx + Tip tx)); simpl.
    + repeat split; try tauto; try discriminate; try lia; congruence.
    + repeat split; try tauto; try discriminate; try lia; congruence.
Qed.

(** C10: when recovery of the sender fails, [ApplyTransaction] returns
    the invalid-signature error and the database, its account map
    included, is the one it was given: no account is read or written
    before the sender is known, so not even gas is charged. *)
Theorem ApplyTransaction_invalid_signature db block tx cause :
  FromAccount tx = inl cause ->
  ApplyTransaction FromAccount db block tx = (db, Some (ErrInvalidSignature cause)).
Proof.
  intros Hfrom. unfold ApplyTransaction. rewrite Hfrom. reflexivity.
Qed.

End LedgerFacts.

(** ** The ledger on the scenarios *)

(** Scenario 2 of the specification, three different accounts. *)
Example scenario_transfer_with_tip :
  let r := ApplyTransaction sigFromAccount dbABM (minedBy "M") txPay in
  snd r = None /\
  acct (accounts (fst r)) "A" = mkAccount 885 1 /\
  acct (accounts (fst r)) "B" = mkAccount 100 0 /\
  acct (accounts (fst r)) "M" = mkAccount 15 0.
Proof. vm_compute. repeat split. Qed.

(** Scenario 1 of the specification, three different accounts. *)
Example scenario_nonce_too_small :
  let r := ApplyTransaction sigFromAccount dbNonce7 (minedBy "M") txStale in
  snd r = Some (ErrNonceTooSmall 7 5) /\
  acct (accounts (fst r)) "A" = mkAccount 995 7 /\
  acct (accounts (fst r)) "B" = mkAccount 0 0 /\
  acct (accounts (fst r)) "M" = mkAccount 5 0.
Proof. vm_compute. repeat split. Qed.

(** C1: a sender that is also the beneficiary of the block. Recovery
    yields A and all four checks pass, the call returns no error, yet A is
    not debited and keeps its old nonce: the last write to A is the
    beneficiary's snapshot, 1000 + 5 + 10 with nonce 0, where the steps
    ask for a debit of 115 and nonce 1. *)
Theorem ApplyTransaction_sender_is_beneficiary :
  let r := ApplyTransaction sigFromAccount dbAB (minedBy "A") txPay in
  sigFromAccount txPay = inr "A"%string /\
  accountingChecks dbAB "A"
    (withBalance (acct (accounts dbAB) "A") (postGasBalance txPay (acct (accounts dbAB) "A")))
    txPay = None /\
  snd r = None /\
  acct (accounts (fst r)) "A" = mkAccount 1015 0 /\
  acct (accounts (fst r)) "B" = mkAccount 100 0.
Proof. vm_compute. repeat split. Qed.

(** C2: the sum of all balances is not kept when two of the three
    accounts are the same one. A sender that mines its own transfer turns
    1000 into 1115; a recipient that mines the transfer to it turns 1000
    into 900; a failed transaction of the miner turns 1000 into 1005. *)
Theorem ApplyTransaction_total_not_conserved :
  totalBalance (accounts dbAB) = 1000 /\
  totalBalance (accounts (fst (ApplyTransaction sigFromAccount dbAB (minedBy "A") txPay)))
    = 1115 /\
  totalBalance (accounts (fst (ApplyTransaction sigFromAccount dbAB (minedBy "B") txPay)))
    = 900 /\
  totalBalance (accounts dbNonce7) = 1000 /\
  snd (ApplyTransaction sigFromAccount dbNonce7 (minedBy "A") txStale)
    = Some (ErrNonceTooSmall 7 5) /\
  totalBalance (accounts (fst (ApplyTransaction sigFromAccount dbNonce7 (minedBy "A") txStale)))
    = 1005.
Proof. vm_compute. repeat split. Qed.

(** C3: a failed check in a block that the sender mines. The call returns
    the nonce error, and the sender's balance goes up by the gas fee, from
    1000 to 1005, where the gas charge asks for 995. *)
Theorem ApplyTransaction_failed_check_sender_is_beneficiary :
  let r := ApplyTransaction sigFromAccount dbNonce7 (minedBy "A") txStale in
  snd r = Some (ErrNonceTooSmall 7 5) /\
  gasFeeOf txStale (acct (accounts dbNonce7) "A") = 5 /\
  acct (accounts dbNonce7) "A" = mkAccount 1000 7 /\
  acct (accounts (fst r)) "A" = mkAccount 1005 7.
Proof. vm_compute. repeat split. Qed.

(** C4: the same transaction, nonce 1, applied twice in blocks that its
    sender mines. Both calls succeed, because the nonce written for A is
    overwritten by the beneficiary's snapshot and stays 0. *)
Theorem ApplyTransaction_replay_sender_is_beneficiary :
  let r := applyAll sigFromAccount dbAB [(minedBy "A", txPay); (minedBy "A", txPay)] in
  snd r = [None; None] /\
  acct (accounts (fst r)) "A" = mkAccount 1030 0 /\
  acct (accounts (fst r)) "B" = mkAccount 200 0.
Proof. vm_compute. repeat split. Qed.

(** C5: a value of 2^64 - 1 with a tip of 2. The sum in the funds check
    wraps to 1, the check passes with a balance of 995, and the debit of
    the value has the exact result 995 - (2^64 - 1), below zero; the
    stored balance wraps to 996 and the recipient is credited 2^64 - 1. *)
Theorem ApplyTransaction_value_plus_tip_wraps :
  let r := ApplyTransaction sigFromAccount dbABM (minedBy "M") txHuge in
  wfAccounts (accounts dbABM) /\ wfTx txHuge /\
  snd r = None /\
  balanceOps sigFromAccount dbABM (minedBy "M") txHuge
    = [995; 5; 995 - (two64 - 1); two64 - 1; 994; 7] /\
  995 - (two64 - 1) < 0 /\
  acct (accounts (fst r)) "A" = mkAccount 994 1 /\
  acct (accounts (fst r)) "B" = mkAccount (two64 - 1) 0 /\
  acct (accounts (fst r)) "M" = mkAccount 7 0.
Proof.
  split; [| split].
  - intros k. unfold acct, dbABM, ledgerOf. simpl.
    destruct (decide (k = "A"%string)) as [-> |];
      [vm_compute; repeat split; discriminate |].
    destruct (decide (k = "B"%string)) as [-> |];
      [vm_compute; repeat split; discriminate |].
    destruct (decide (k = "M"%string)) as [-> |];
      [vm_compute; repeat split; discriminate |].
    rewrite !lookup_insert_ne by congruence. rewrite lookup_empty.
    vm_compute; repeat split; discriminate.
  - vm_compute. repeat split; discriminate.
  - vm_compute. repeat split.
Qed.

(** C6, as stated, fails: the balance after gas is 0 and equals
    [Value + Tip] = 0, so it is not below it, and the call still fails
    with the insufficient-funds error. *)
Lemma ApplyTransaction_zero_balance_insufficient :
  let r := ApplyTransaction sigFromAccount dbPoor (minedBy "M") txNothing in
  let postGas := postGasBalance txNothing (acct (accounts dbPoor) "A") in
  ~ ((exists bal needed, snd r = Some (ErrInsufficientFunds bal needed)) <->
     postGas < Value txNothing + Tip txNothing).
Proof.
  intros r postGas [Hfail _].
  assert (Hlt : postGas < Value txNothing + Tip txNothing).
  { apply Hfail. exists 0, 0. vm_compute. reflexivity. }
  vm_compute in Hlt. discriminate.
Qed.

Lemma ApplyTransaction_insufficient_funds_iff_witness :
  sigFromAccount txPay = inr "A"%string /\
  snd (ApplyTransaction sigFromAccount dbABM (minedBy "M") txPay) = None /\
  postGasBalance txPay (acct (accounts dbABM) "A") = 995.
Proof.
  split; [reflexivity |].
  pose proof (ApplyTransaction_insufficient_funds_iff sigFromAccount dbABM (minedBy "M")
                txPay "A"%string) as H.
  assert (Hpg : postGasBalance txPay (acct (accounts dbABM) "A") = 995)
    by (vm_compute; reflexivity).
  split; [| exact Hpg].
  apply H; try reflexivity; try discriminate.
  - rewrite Hpg. split; [discriminate | vm_compute; discriminate].
Defined.

Lemma ApplyTransaction_invalid_signature_witness :
  sigFromAccount txUnsigned = inl "invalid signature values"%string /\
  ApplyTransaction sigFromAccount dbABM (minedBy "M") txUnsigned
    = (dbABM, Some (ErrInvalidSignature "invalid signature values")).
Proof.
  split; [reflexivity |].
  apply (ApplyTransaction_invalid_signature sigFromAccount). reflexivity.
Defined.

(** ** Block replay *)

Lemma head_omap_seq {A} (f : nat -> option A) (n : nat) :
  match head (omap f (seq 0 n)) with
  | None => forall j, (j < n)%nat -> f j = None
  | Some e => exists k, (k < n)%nat /\ f k = Some e /\ forall j, (j < k)%nat -> f j = None
  end.
Proof.
  induction n as [| n IH].
  - simpl. intros j Hj. lia.
  - rewrite seq_S, omap_app. simpl.
    destruct (omap f (seq 0 n)) as [| e l] eqn:Hl; simpl in *.
    + destruct (f n) as [e |] eqn:Hn; simpl.
      * exists n. repeat split; [lia | exact Hn | intros j Hj; apply IH; exact Hj].
      * intros j Hj. destruct (decide (j = n)) as [-> | Hne]; [exact Hn |].
        apply IH. lia.
    + destruct IH as (k & Hk & Hfk & Hbefore).
      exists k. repeat split; [lia | exact Hfk | exact Hbefore].
Qed.

Section ReplayFacts.

Variable FromAccount : BlockTx -> string + AccountID.
Variable ValidateBlock : Block -> Block -> option Error.
Variable ToAccountID : string -> Error + AccountID.
Context {I : Type} `{Iterator I}.

Lemma nexts_S (k : nat) : forall iter : I,
  nexts (S k) iter = snd (Next (nexts k iter)).
Proof.
  induction k as [| k IH]; intros iter; [reflexivity |].
  change (nexts (S (S k)) iter) with (nexts (S k) (snd (Next iter))).
  rewrite IH. reflexivity.
Qed.

Lemma yielded_S (iter : I) (n : nat) :
  yielded iter (S n) = yielded iter n ++ [blockAt iter n].
Proof. unfold yielded. rewrite seq_S, map_app. reflexivity. Qed.

(** One round of the read loop, at the cursor that [k] calls of [Next]
    have left. *)
Lemma readLoop_round fuel validate (iter : I) k blocks latest :
  readLoop ValidateBlock (S fuel) validate (nexts k iter) blocks latest =
    if doneAfter iter k then Some (inr blocks)
    else
      match snd (yieldAt iter k) with
      | Some e => Some (inl e)
      | None =>
        match (if validate then ValidateBlock (blockAt iter k) latest else None) with
        | Some e => Some (inl e)
        | None =>
          readLoop ValidateBlock fuel validate (nexts (S k) iter)
            (blocks ++ [blockAt iter k]) (blockAt iter k)
        end
      end.
Proof.
  unfold doneAfter, blockAt, yieldAt. rewrite nexts_S. simpl.
  destruct (Next (nexts k iter)) as [[block err] iter']. reflexivity.
Qed.

(** [k] rounds that neither see [Done] nor fail collect the first [k]
    blocks and leave the last of them as the latest block. *)
Lemma readLoop_rounds validate (iter : I) (k : nat) :
  (forall j, (j < k)%nat -> doneAfter iter j = false) ->
  (forall j, (j < k)%nat -> roundError ValidateBlock validate iter j = None) ->
  forall fuel,
    ReadAllBlocks ValidateBlock (k + fuel) iter validate =
    readLoop ValidateBlock fuel validate (nexts k iter) (yielded iter k) (prevBlock iter k).
Proof.
  induction k as [| k IH]; intros Hdone Herr fuel; [reflexivity |].
  replace (S k + fuel)%nat with (k + S fuel)%nat by lia.
  rewrite IH by (intros j Hj; first [apply Hdone | apply Herr]; lia).
  rewrite readLoop_round, (Hdone k) by lia.
  pose proof (Herr k ltac:(lia)) as Hk. unfold roundError in Hk.
  destruct (snd (yieldAt iter k)); [discriminate |].
  rewrite Hk, yielded_S. reflexivity.
Qed.

(** C8: let the call of [Next] number [n] be the first after which
    [Done] answers true. Given fuel for [n + 1] rounds, [ReadAllBlocks]
    returns the blocks of the calls [0 .. n-1], those after which [Done]
    answered false, in order, and nothing of what call [n] yielded, be
    it a zero-value block, a proper block or an error; [Done] is asked
    before block and error are looked at. A round among the first [n]
    that fails returns its error in place of the blocks. *)
Theorem ReadAllBlocks_until_done validate (iter : I) (n fuel : nat) :
  (forall k, (k < n)%nat -> doneAfter iter k = false) ->
  doneAfter iter n = true ->
  (n < fuel)%nat ->
  ReadAllBlocks ValidateBlock fuel iter validate =
    Some match firstError ValidateBlock validate iter n with
         | Some e => inl e
         | None => inr (yielded iter n)
         end.
Proof.
  intros Hopen Hdone Hfuel. unfold firstError.
  pose proof (head_omap_seq (roundError ValidateBlock validate iter) n) as Hfirst.
  destruct (head _) as [e |].
  - destruct Hfirst as (k & Hk & Hfail & Hbefore).
    replace fuel with (k + S (fuel - k - 1))%nat by lia.
    rewrite readLoop_rounds by (intros j Hj; first [apply Hopen; lia | apply Hbefore; lia]).
    rewrite readLoop_round, (Hopen k Hk).
    unfold roundError in Hfail.
    destruct (snd (yieldAt iter k)) as [e0 |]; [congruence |].
    rewrite Hfail. reflexivity.
  - replace fuel with (n + S (fuel - n - 1))%nat by lia.
    rewrite readLoop_rounds by assumption.
    rewrite readLoop_round, Hdone. reflexivity.
Qed.

(** C7, amended: let [k] rounds of the read loop go through. If round
    [k] is entered ([Done] answers false after its [Next]) and fails,
    by an error of [Next] or by an error of [ValidateBlock], then [New]
    returns that error. If instead [Done] answers true after call [k],
    [New] returns an error only when a genesis key does not parse, and
    otherwise the database built block by block over the [k] blocks read:
    every transaction of the block is handed to [ApplyTransaction], in
    order, each on the database that the call before it left, whether
    that call returned an error or not, and then the block's mining
    reward is applied. So an error of [ApplyTransaction] never reaches
    the caller of [New], and the database that a refused transaction
    leaves, with its gas charge, is the one the replay goes on from: for
    a sender that is not the beneficiary it holds the sender's balance
    less the gas fee and the beneficiary's balance plus the gas fee. *)
Theorem New_aborts_on_read_errors_only gen (iter : I) (k fuel : nat) :
  (forall j, (j < k)%nat -> doneAfter iter j = false) ->
  (forall j, (j < k)%nat -> roundError ValidateBlock true iter j = None) ->
  (k < fuel)%nat ->
  (forall e,
     doneAfter iter k = false ->
     roundError ValidateBlock true iter k = Some e ->
     New FromAccount ValidateBlock ToAccountID fuel gen iter = Some (inl e)) /\
  (doneAfter iter k = true ->
   New FromAccount ValidateBlock ToAccountID fuel gen iter =
     Some match applyGenesis ToAccountID (Balances gen) ∅ with
          | inl e => inl e
          | inr m =>
            inr (foldl
                   (fun db block =>
                      ApplyMiningReward
                        (foldl (fun d tx => fst (ApplyTransaction FromAccount d block tx))
                           db (Trans block))
                        block)
                   (mkDatabase gen (default zeroBlock (last (yielded iter k))) m)
                   (yielded iter k))
          end) /\
  (forall d block tx fromID err,
     FromAccount tx = inr fromID ->
     snd (ApplyTransaction FromAccount d block tx) = Some err ->
     fromID <> BeneficiaryID (Header block) ->
     let from := acct (accounts d) fromID in
     let bnfc := acct (accounts d) (BeneficiaryID (Header block)) in
     let d' := fst (ApplyTransaction FromAccount d block tx) in
     acct (accounts d') fromID = mkAccount (postGasBalance tx from) (Nonce from) /\
     acct (accounts d') (BeneficiaryID (Header block))
       = mkAccount (add64 (Balance bnfc) (gasFeeOf tx from)) (Nonce bnfc)).
Proof.
  intros Hopen Hclean Hfuel.
  assert (Hread : ReadAllBlocks ValidateBlock fuel iter true =
                  readLoop ValidateBlock (S (fuel - k - 1)) true (nexts k iter)
                    (yielded iter k) (prevBlock iter k)).
  { replace fuel with (k + S (fuel - k - 1))%nat at 1 by lia.
    apply readLoop_rounds; assumption. }
  rewrite readLoop_round in Hread.
  split; [| split].
  - intros e Hk Hfail. rewrite Hk in Hread. unfold roundError in Hfail.
    unfold New. rewrite Hread.
    destruct (snd (yieldAt iter k)) as [e0 |]; [congruence |].
    rewrite Hfail. reflexivity.
  - intros Hdone. rewrite Hdone in Hread. unfold New. rewrite Hread. simpl.
    destruct (applyGenesis _ _ _); reflexivity.
  - intros d block tx fromID err Hfrom Herr Hne. cbv zeta.
    assert (Hchecks :
      accountingChecks d fromID
        (withBalance (acct (accounts d) fromID)
           (postGasBalance tx (acct (accounts d) fromID))) tx = Some err).
    { revert Herr. rewrite (ApplyTransaction_recovered _ _ _ _ _ Hfrom). cbv zeta.
      destruct (accountingChecks _ _ _ _) as [err' |]; simpl; congruence. }
    destruct (ApplyTransaction_failed_check_distinct FromAccount d block tx fromID err
                Hfrom Hchecks Hne) as (_ & Hsender & Hbnfc & _).
    split; assumption.
Qed.

End ReplayFacts.

(** C7, as stated, fails: the stored chain holds one block whose only
    transaction is refused by [ApplyTransaction] with the nonce error,
    and [New] returns the database built from the gas charge of that
    transaction and the mining reward, not an error. *)
Lemma New_drops_transaction_error :
  snd (ApplyTransaction sigFromAccount dbGenesisAB blockOne txNonceZero)
    = Some (ErrNonceTooSmall 0 0) /\
  New sigFromAccount numberValidate plainToAccountID 2 genesisAB (storedChain [blockOne])
    = Some (inr (ApplyMiningReward
                   (fst (ApplyTransaction sigFromAccount dbGenesisAB blockOne txNonceZero))
                   blockOne)) /\
  acct (accounts (ApplyMiningReward
                    (fst (ApplyTransaction sigFromAccount dbGenesisAB blockOne txNonceZero))
                    blockOne)) "A" = mkAccount 995 0.
Proof. vm_compute. repeat split. Qed.

Lemma New_aborts_on_read_errors_only_witness :
  (doneAfter brokenStore 1 = false /\
   roundError numberValidate true brokenStore 1 = Some (ErrExternal "read error") /\
   New sigFromAccount numberValidate plainToAccountID 2 genesisAB brokenStore
     = Some (inl (ErrExternal "read error"))) /\
  (doneAfter (storedChain [blockMixed]) 1 = true /\
   snd (ApplyTransaction sigFromAccount dbGenesisMixed blockMixed txNonceZero)
     = Some (ErrNonceTooSmall 0 0) /\
   New sigFromAccount numberValidate plainToAccountID 2 genesisAB (storedChain [blockMixed])
     = Some (inr dbMixedReplayed) /\
   acct (accounts dbMixedReplayed) "A" = mkAccount 880 1 /\
   acct (accounts dbMixedReplayed) "B" = mkAccount 100 0 /\
   acct (accounts dbMixedReplayed) "M" = mkAccount 720 0).
Proof.
  split.
  - split; [reflexivity |]. split; [reflexivity |].
    apply (New_aborts_on_read_errors_only sigFromAccount numberValidate plainToAccountID
             genesisAB brokenStore 1 2).
    + intros j Hj. assert (j = 0%nat) as -> by lia. reflexivity.
    + intros j Hj. assert (j = 0%nat) as -> by lia. reflexivity.
    + lia.
    + reflexivity.
    + reflexivity.
  - split; [reflexivity |]. split; [reflexivity |].
    split; [| repeat split; reflexivity].
    refine (proj1 (proj2 (New_aborts_on_read_errors_only sigFromAccount numberValidate
                            plainToAccountID genesisAB (storedChain [blockMixed]) 1 2
                            _ _ _)) _).
    + intros j Hj. assert (j = 0%nat) as -> by lia. reflexivity.
    + intros j Hj. assert (j = 0%nat) as -> by lia. reflexivity.
    + lia.
    + reflexivity.
Defined.

Lemma ReadAllBlocks_until_done_witness :
  yieldAt (storedChain [blockOne]) 1 = (zeroBlock, Some (ErrExternal "end of chain")) /\
  ReadAllBlocks numberValidate 2 (storedChain [blockOne]) true = Some (inr [blockOne]).
Proof.
  split; [reflexivity |].
  refine (ReadAllBlocks_until_done numberValidate true (storedChain [blockOne]) 1 2 _ _ _).
  - intros j Hj. assert (j = 0%nat) as -> by lia. reflexivity.
  - reflexivity.
  - lia.
Defined.

(** ** Peer bookkeeping *)

Section WorkerFacts.

Variable State : Type.
Variable addPeerNode : State -> Peer -> State * option Error.

(** The loop over peers that are all accepted: every one is handed to
    [addPeerNode] and logged, in list order, and the loop goes on with
    what follows them. *)
Lemma addNewPeersLoop_accepted s pre s1 :
  AllAdded addPeerNode s pre s1 ->
  forall rest calls log,
    addNewPeersLoop addPeerNode (pre ++ rest) (mkWorld s calls log) =
    addNewPeersLoop addPeerNode rest
      (mkWorld s1 (calls ++ pre) (log ++ map EvAddingPeer pre)).
Proof.
  induction 1 as [s | s peer s1 l s2 Hadd Hrest IH]; intros rest calls log.
  - simpl. rewrite !app_nil_r. reflexivity.
  - simpl. unfold callAddPeerNode. simpl. rewrite Hadd.
    unfold evHandler. simpl. rewrite IH.
    rewrite <- !app_assoc. reflexivity.
Qed.

(** C9: let [addPeerNode] accept the peers [pre] one after the other.
    Then [addNewPeers pre] hands exactly these peers to [addPeerNode],
    in list order, logs each and returns nil. And when the call for the
    peer that follows [pre] returns an error, [addNewPeers] on
    [pre ++ peer :: post] hands [pre] and then [peer] to [addPeerNode],
    none of [post], leaves the state that the failed call left, and
    returns nil all the same. *)
Theorem addNewPeers_stops_at_first_error (w : World State) pre s1 :
  AllAdded addPeerNode (wState w) pre s1 ->
  addNewPeers addPeerNode pre w =
    (mkWorld s1 (wCalls w ++ pre)
       (wLog w ++ [EvStarted] ++ map EvAddingPeer pre ++ [EvCompleted]), None) /\
  (forall peer post s2 e,
     addPeerNode s1 peer = (s2, Some e) ->
     addNewPeers addPeerNode (pre ++ peer :: post) w =
       (mkWorld s2 (wCalls w ++ pre ++ [peer])
          (wLog w ++ [EvStarted] ++ map EvAddingPeer pre ++ [EvCompleted]), None)).
Proof.
  intros Hpre. destruct w as [s calls log]. simpl in Hpre.
  unfold addNewPeers. change (evHandler EvStarted (mkWorld s calls log))
    with (mkWorld s calls (log ++ [EvStarted])).
  split.
  - rewrite <- (app_nil_r pre) at 1.
    rewrite (addNewPeersLoop_accepted _ _ _ Hpre). simpl.
    unfold evHandler. simpl. rewrite <- !app_assoc. reflexivity.
  - intros peer post s2 e Hfail.
    rewrite (addNewPeersLoop_accepted _ _ _ Hpre). simpl.
    unfold callAddPeerNode. simpl. rewrite Hfail.
    unfold evHandler. simpl. rewrite <- !app_assoc. reflexivity.
Qed.

End WorkerFacts.

Lemma addNewPeers_stops_at_first_error_witness :
  setAddPeerNode {["a:9080"%string; "b:9080"%string]} peerB
    = ({["a:9080"%string; "b:9080"%string]}, Some (ErrExternal "peer already exists")) /\
  addNewPeers setAddPeerNode [peerA; peerB; peerC] knowsB
    = (mkWorld {["a:9080"%string; "b:9080"%string]} [peerA; peerB]
         [EvStarted; EvAddingPeer peerA; EvCompleted], None).
Proof.
  assert (Hdup : setAddPeerNode {["a:9080"%string; "b:9080"%string]} peerB
                 = ({["a:9080"%string; "b:9080"%string]},
                    Some (ErrExternal "peer already exists"))).
  { unfold setAddPeerNode. rewrite decide_True by set_solver. reflexivity. }
  split; [exact Hdup |].
  refine (proj2 (addNewPeers_stops_at_first_error (gset string) setAddPeerNode knowsB
                   [peerA] {["a:9080"%string; "b:9080"%string]} _)
            peerB [peerC] _ _ Hdup).
  eapply AllAdded_cons; [| apply AllAdded_nil].
  unfold setAddPeerNode, knowsB. simpl. rewrite decide_False by set_solver. reflexivity.
Defined.

(** * Further properties of the ledger *)

(** Ledgers given as a list hold [uint64] values when the list does. *)
Lemma wfAccounts_list_to_map (l : list (AccountID * Account)) :
  Forall (fun p => is_u64 (Balance p.2) /\ is_u64 (Nonce p.2)) l ->
  wfAccounts (list_to_map l).
Proof.
  induction 1 as [| [id a] l Ha Hl IH]; intros k.
  - simpl. unfold acct. rewrite lookup_empty. simpl. unfold is_u64, two64. simpl. lia.
  - simpl. rewrite acct_insert. case_decide; [exact Ha | apply IH].
Qed.

Lemma withBalance_same a b : b = Balance a -> withBalance a b = a.
Proof. intros ->. destruct a. reflexivity. Qed.

Ltac u64_dec := unfold is_u64, two64; simpl; lia.

Ltac wf_ledger :=
  apply wfAccounts_list_to_map; repeat constructor; simpl; u64_dec.

Section LedgerMore.

Variable FromAccount : BlockTx -> string + AccountID.

(** Neither outcome of a call touches the genesis or the latest block. *)
Lemma ApplyTransaction_keeps_header db block tx :
  genesis (fst (ApplyTransaction FromAccount db block tx)) = genesis db /\
  latestBlock (fst (ApplyTransaction FromAccount db block tx)) = latestBlock db.
Proof.
  unfold ApplyTransaction. destruct (FromAccount tx); [split; reflexivity |].
  cbv zeta. destruct (accountingChecks _ _ _ _); split; reflexivity.
Qed.

(** An account that a call does not name is not written by it. *)
Lemma ApplyTransaction_untouched db block tx k :
  FromAccount tx <> inr k ->
  k <> ToID tx ->
  k <> BeneficiaryID (Header block) ->
  acct (accounts (fst (ApplyTransaction FromAccount db block tx))) k = acct (accounts db) k.
Proof.
  intros Hfrom Hto Hbnfc.
  destruct (FromAccount tx) as [cause | fromID] eqn:Hrec.
  - unfold ApplyTransaction. rewrite Hrec. reflexivity.
  - assert (k <> fromID) by congruence.
    rewrite (ApplyTransaction_recovered _ _ _ _ _ Hrec). cbv zeta.
    destruct (accountingChecks _ _ _ _); simpl; solve_acct.
Qed.

(** X6: whatever a call returns, an account that is neither the sender,
    nor the recipient named in the transaction, nor the beneficiary of
    the block reads after the call as it read before, and the genesis and
    the latest block of the database are the same. *)
Theorem ApplyTransaction_frame db block tx k :
  FromAccount tx <> inr k ->
  k <> ToID tx ->
  k <> BeneficiaryID (Header block) ->
  acct (accounts (fst (ApplyTransaction FromAccount db block tx))) k = acct (accounts db) k /\
  genesis (fst (ApplyTransaction FromAccount db block tx)) = genesis db /\
  latestBlock (fst (ApplyTransaction FromAccount db block tx)) = latestBlock db.
Proof.
  intros Hfrom Hto Hbnfc.
  split; [apply ApplyTransaction_untouched; assumption | apply ApplyTransaction_keeps_header].
Qed.

(** X7: a sender whose balance does not exceed the gas fee
    [GasPrice * GasUnits] never has its transaction applied: the call
    returns an error. When the sender is not the beneficiary of the
    block, the sender is left with a balance of 0 and its whole balance
    is what the beneficiary is credited. *)
Theorem ApplyTransaction_gas_takes_all db block tx fromID :
  wfAccounts (accounts db) ->
  FromAccount tx = inr fromID ->
  Balance (acct (accounts db) fromID) <= mul64 (GasPrice tx) (GasUnits tx) ->
  let from := acct (accounts db) fromID in
  let bnfcID := BeneficiaryID (Header block) in
  let bnfc := acct (accounts db) bnfcID in
  let post := accounts (fst (ApplyTransaction FromAccount db block tx)) in
  snd (ApplyTransaction FromAccount db block tx) <> None /\
  (fromID <> bnfcID ->
   acct post fromID = mkAccount 0 (Nonce from) /\
   acct post bnfcID = mkAccount (add64 (Balance bnfc) (Balance from)) (Nonce bnfc)).
Proof.
  intros Hwf Hrec Hfee. cbv zeta.
  destruct (Hwf fromID) as [HA _].
  assert (Hg : gasFeeOf tx (acct (accounts db) fromID) = Balance (acct (accounts db) fromID)).
  { rewrite gasFeeOf_min. lia. }
  assert (Hpg : postGasBalance tx (acct (accounts db) fromID) = 0).
  { rewrite postGasBalance_exact by exact HA. lia. }
  rewrite (ApplyTransaction_recovered _ _ _ _ _ Hrec). cbv zeta. rewrite Hpg, Hg.
  destruct (accountingChecks _ _ _ _) as [err |] eqn:Hchecks.
  - simpl. split; [discriminate |]. intros Hne. split; solve_acct.
  - apply (accountingChecks_None FromAccount) in Hchecks as (_ & _ & _ & Hnz & _).
    simpl in Hnz. contradiction.
Qed.

(** X8: a transaction of a sender whose balance is 0, an account the
    ledger has never seen among them, is refused and moves nothing: the
    call returns an error and every account reads afterwards as it read
    before, also when sender, recipient and beneficiary coincide. *)
Theorem ApplyTransaction_empty_sender db block tx fromID :
  wfAccounts (accounts db) ->
  FromAccount tx = inr fromID ->
  Balance (acct (accounts db) fromID) = 0 ->
  snd (ApplyTransaction FromAccount db block tx) <> None /\
  forall k,
    acct (accounts (fst (ApplyTransaction FromAccount db block tx))) k = acct (accounts db) k.
Proof.
  intros Hwf Hrec Hzero.
  pose proof (mul64_range (GasPrice tx) (GasUnits tx)) as [Hm0 _].
  assert (Hg : gasFeeOf tx (acct (accounts db) fromID) = 0).
  { rewrite gasFeeOf_min. lia. }
  assert (Hpg : postGasBalance tx (acct (accounts db) fromID) = 0).
  { unfold postGasBalance. rewrite Hg, Hzero. reflexivity. }
  destruct (Hwf (BeneficiaryID (Header block))) as [HM _].
  assert (Hadd : add64 (Balance (acct (accounts db) (BeneficiaryID (Header block)))) 0
                 = Balance (acct (accounts db) (BeneficiaryID (Header block)))).
  { unfold add64. rewrite Z.add_0_r. apply wrap64_small. exact HM. }
  rewrite (ApplyTransaction_recovered _ _ _ _ _ Hrec). cbv zeta. rewrite Hpg, Hg, Hadd.
  destruct (accountingChecks _ _ _ _) as [err |] eqn:Hchecks.
  - simpl. split; [discriminate |]. intros k.
    rewrite !withBalance_same by congruence. solve_acct.
  - apply (accountingChecks_None FromAccount) in Hchecks as (_ & _ & _ & Hnz & _).
    simpl in Hnz. contradiction.
Qed.

(** X9: a transaction that names its own sender as recipient is never
    applied. The call returns the wrong-chain error when the chain id is
    off and the self-transfer error otherwise, whatever nonce and funds
    are, and the sender keeps its nonce. *)
Theorem ApplyTransaction_self_transfer db block tx fromID :
  FromAccount tx = inr fromID ->
  ToID tx = fromID ->
  snd (ApplyTransaction FromAccount db block tx) =
    Some (if Z.eqb (ChainID tx) (GenChainID (genesis db))
          then ErrSelfTransfer fromID fromID
          else ErrWrongChainID (ChainID tx) (GenChainID (genesis db))) /\
  Nonce (acct (accounts (fst (ApplyTransaction FromAccount db block tx))) fromID)
    = Nonce (acct (accounts db) fromID).
Proof.
  intros Hrec Hself.
  rewrite (ApplyTransaction_recovered _ _ _ _ _ Hrec). cbv zeta.
  unfold accountingChecks. rewrite Hself.
  destruct (Z.eqb (ChainID tx) (GenChainID (genesis db))); simpl.
  - rewrite bool_decide_eq_true_2 by reflexivity. simpl.
    split; [reflexivity | solve_acct; simpl; congruence].
  - split; [reflexivity | solve_acct; simpl; congruence].
Qed.

(** X10: accounts come into being and are never dropped by a call. Every
    key of the account map is still a key afterwards; once the sender is
    recovered, sender and beneficiary are keys afterwards, whether or not
    a check fails, and after a successful call the recipient is one too. *)
Theorem ApplyTransaction_accounts_appear db block tx fromID :
  FromAccount tx = inr fromID ->
  let post := accounts (fst (ApplyTransaction FromAccount db block tx)) in
  dom (accounts db) ⊆ dom post /\
  fromID ∈ dom post /\
  BeneficiaryID (Header block) ∈ dom post /\
  (snd (ApplyTransaction FromAccount db block tx) = None -> ToID tx ∈ dom post).
Proof.
  intros Hrec. cbv zeta.
  rewrite (ApplyTransaction_recovered _ _ _ _ _ Hrec). cbv zeta.
  destruct (accountingChecks _ _ _ _) as [err |]; simpl;
    rewrite !dom_insert_L; repeat split; try set_solver.
Qed.

End LedgerMore.

(** ** The further ledger properties on the scenarios *)

Lemma dbABM_wf : wfAccounts (accounts dbABM).
Proof. unfold dbABM, ledgerOf. cbn [accounts]. wf_ledger. Qed.

Lemma dbNonce7_wf : wfAccounts (accounts dbNonce7).
Proof. unfold dbNonce7, ledgerOf. cbn [accounts]. wf_ledger. Qed.

Lemma dbPoor_wf : wfAccounts (accounts dbPoor).
Proof. unfold dbPoor, ledgerOf. cbn [accounts]. wf_ledger. Qed.

Lemma txPay_wf : wfTx txPay.
Proof. repeat split; vm_compute; congruence. Qed.

Lemma ApplyTransaction_success_distinct_witness :
  sigFromAccount txPay = inr "A"%string /\
  snd (ApplyTransaction sigFromAccount dbABM (minedBy "M") txPay) = None /\
  acct (accounts (fst (ApplyTransaction sigFromAccount dbABM (minedBy "M") txPay))) "A"
    = mkAccount 885 1.
Proof.
  split; [reflexivity |].
  destruct (ApplyTransaction_success_distinct sigFromAccount dbABM (minedBy "M") txPay
              "A"%string) as (Hok & Hsender & _).
  - reflexivity.
  - reflexivity.
  - discriminate.
  - discriminate.
  - split; [exact Hok | exact Hsender].
Defined.

Lemma ApplyTransaction_failed_check_gas_charge_witness :
  sigFromAccount txStale = inr "A"%string /\
  acct (accounts (fst (ApplyTransaction sigFromAccount dbNonce7 (minedBy "M") txStale))) "A"
    = mkAccount 995 7 /\
  acct (accounts (fst (ApplyTransaction sigFromAccount dbNonce7 (minedBy "M") txStale))) "M"
    = mkAccount 5 0 /\
  Z.min (mul64 (GasPrice txStale) (GasUnits txStale)) 1000
    = Z.min (GasPrice txStale * GasUnits txStale) 1000.
Proof.
  split; [reflexivity |].
  destruct (ApplyTransaction_failed_check_gas_charge sigFromAccount dbNonce7 (minedBy "M")
              txStale "A"%string (ErrNonceTooSmall 7 5) dbNonce7_wf)
    as (Hsender & Hbnfc & Hexact).
  - reflexivity.
  - reflexivity.
  - discriminate.
  - reflexivity.
  - split; [exact Hsender |]. split; [exact Hbnfc |].
    apply Hexact; [discriminate | discriminate | reflexivity].
Defined.

Lemma ApplyTransaction_conserves_distinct_witness :
  sigFromAccount txPay = inr "A"%string /\
  totalBalance (accounts (fst (ApplyTransaction sigFromAccount dbABM (minedBy "M") txPay)))
    = totalBalance (accounts dbABM).
Proof.
  split; [reflexivity |].
  apply (ApplyTransaction_conserves_distinct sigFromAccount dbABM (minedBy "M") txPay
           "A"%string dbABM_wf txPay_wf).
  - reflexivity.
  - discriminate.
  - discriminate.
  - reflexivity.
  - reflexivity.
  - reflexivity.
Defined.

Lemma ApplyTransaction_no_replay_distinct_witness :
  snd (ApplyTransaction sigFromAccount dbABM (minedBy "M") txPay) = None /\
  snd (ApplyTransaction sigFromAccount
         (fst (applyAll sigFromAccount
                 (fst (ApplyTransaction sigFromAccount dbABM (minedBy "M") txPay))
                 [(minedBy "M", txFromB)]))
         (minedBy "M") txPay) <> None.
Proof.
  split; [reflexivity |].
  apply (ApplyTransaction_no_replay_distinct sigFromAccount dbABM (minedBy "M") txPay
           "A"%string [(minedBy "M", txFromB)] (minedBy "M") txPay).
  - reflexivity.
  - discriminate.
  - reflexivity.
  - reflexivity.
  - discriminate.
Defined.

Lemma balanceOps_nonneg_witness :
  Value txPay + Tip txPay < two64 /\
  Forall (fun z => 0 <= z) (balanceOps sigFromAccount dbABM (minedBy "M") txPay).
Proof.
  split; [reflexivity |].
  apply (balanceOps_nonneg sigFromAccount dbABM (minedBy "M") txPay dbABM_wf txPay_wf).
  reflexivity.
Defined.

Lemma ApplyTransaction_frame_witness :
  acct (accounts (fst (ApplyTransaction sigFromAccount dbABM (minedBy "M") txSelf))) "B"
    = acct (accounts dbABM) "B".
Proof.
  apply (ApplyTransaction_frame sigFromAccount dbABM (minedBy "M") txSelf "B"%string);
    discriminate.
Defined.

Lemma ApplyTransaction_gas_takes_all_witness :
  Balance (acct (accounts dbPoor) "A") <= mul64 (GasPrice txNothing) (GasUnits txNothing) /\
  snd (ApplyTransaction sigFromAccount dbPoor (minedBy "M") txNothing) <> None.
Proof.
  split; [discriminate |].
  apply (ApplyTransaction_gas_takes_all sigFromAccount dbPoor (minedBy "M") txNothing
           "A"%string dbPoor_wf).
  - reflexivity.
  - discriminate.
Defined.

Lemma ApplyTransaction_empty_sender_witness :
  Balance (acct (accounts dbABM) "B") = 0 /\
  snd (ApplyTransaction sigFromAccount dbABM (minedBy "M") txFromB) <> None.
Proof.
  split; [reflexivity |].
  apply (ApplyTransaction_empty_sender sigFromAccount dbABM (minedBy "M") txFromB
           "B"%string dbABM_wf); reflexivity.
Defined.

Lemma ApplyTransaction_self_transfer_witness :
  snd (ApplyTransaction sigFromAccount dbABM (minedBy "M") txSelf)
    = Some (ErrSelfTransfer "A" "A").
Proof.
  refine (proj1 (ApplyTransaction_self_transfer sigFromAccount dbABM (minedBy "M") txSelf
                   "A"%string _ _)); reflexivity.
Defined.

Lemma ApplyTransaction_accounts_appear_witness :
  "M"%string ∈ dom (accounts (fst (ApplyTransaction sigFromAccount dbNonce7 (minedBy "M")
                                     txStale))).
Proof.
  refine (proj1 (proj2 (proj2 (ApplyTransaction_accounts_appear sigFromAccount dbNonce7
                                 (minedBy "M") txStale "A"%string _)))).
  reflexivity.
Defined.

(** * The remaining methods of the database *)

Lemma acct_empty k : acct ∅ k = zeroAccount.
Proof. unfold acct. rewrite lookup_empty. reflexivity. Qed.

Lemma acct_delete (m : gmap AccountID Account) k k' :
  acct (delete k m) k' = if decide (k = k') then zeroAccount else acct m k'.
Proof. unfold acct. rewrite lookup_delete. case_decide; reflexivity. Qed.

(** X11: the mining reward is a credit to the beneficiary alone. As long
    as the credit stays below 2^64, the beneficiary's balance grows by
    the reward of the block header and keeps its nonce, no other account
    changes, and the sum of all balances grows by exactly the reward. *)
Theorem ApplyMiningReward_credits db block :
  wfAccounts (accounts db) ->
  0 <= MiningReward (Header block) ->
  let bnfcID := BeneficiaryID (Header block) in
  let bnfc := acct (accounts db) bnfcID in
  Balance bnfc + MiningReward (Header block) < two64 ->
  let post := accounts (ApplyMiningReward db block) in
  acct post bnfcID = mkAccount (Balance bnfc + MiningReward (Header block)) (Nonce bnfc) /\
  (forall k, k <> bnfcID -> acct post k = acct (accounts db) k) /\
  totalBalance post = totalBalance (accounts db) + MiningReward (Header block).
Proof.
  intros Hwf Hreward. cbv zeta. intros Hroom.
  destruct (Hwf (BeneficiaryID (Header block))) as [[H0 _] _].
  unfold ApplyMiningReward. simpl. rewrite add64_exact by lia.
  repeat split.
  - solve_acct.
  - intros k Hk. solve_acct.
  - rewrite totalBalance_insert. simpl. lia.
Qed.

(** X12: after [Remove], the account reads as the zero account and is
    no key of the map; every other account reads as before, and the sum
    of all balances has gone down by the balance of the removed account. *)
Theorem Remove_forgets_account db accountID :
  acct (accounts (Remove db accountID)) accountID = zeroAccount /\
  (accountID ∉ dom (accounts (Remove db accountID))) /\
  (forall k, k <> accountID ->
     acct (accounts (Remove db accountID)) k = acct (accounts db) k) /\
  totalBalance (accounts (Remove db accountID))
    = totalBalance (accounts db) - Balance (acct (accounts db) accountID).
Proof.
  unfold Remove. simpl. repeat split.
  - rewrite acct_delete. case_decide; congruence.
  - apply not_elem_of_dom, lookup_delete_eq.
  - intros k Hk. rewrite acct_delete. case_decide; congruence.
  - unfold acct. destruct (accounts db !! accountID) as [a |] eqn:Hk; simpl.
    + rewrite (totalBalance_delete _ _ _ Hk). lia.
    + rewrite delete_id by exact Hk. lia.
Qed.

(** X13: the map that [CopyAccounts] fills entry by entry is equal to the
    account map of the database: no account is lost, added or changed by
    the copy, in whatever order the entries are visited. *)
Theorem CopyAccounts_same db : CopyAccounts db = accounts db.
Proof.
  unfold CopyAccounts.
  apply (map_fold_weak_ind (fun r (m : gmap AccountID Account) => r = m)).
  - reflexivity.
  - intros i x m r _ ->. reflexivity.
Qed.

Section GenesisFacts.

Variable ToAccountID : string -> Error + AccountID.

Lemma applyGenesis_app l1 : forall l2 m,
  applyGenesis ToAccountID (l1 ++ l2) m =
    match applyGenesis ToAccountID l1 m with
    | inl e => inl e
    | inr m1 => applyGenesis ToAccountID l2 m1
    end.
Proof.
  induction l1 as [| [s b] l1 IH]; intros l2 m; simpl; [reflexivity |].
  destruct (ToAccountID s); [reflexivity | apply IH].
Qed.

(** The genesis loop of [New] and the one of [Reset] agree. *)
Lemma applyGenesis_seedGenesis l : forall m,
  applyGenesis ToAccountID l m =
    match seedGenesis ToAccountID l m with
    | (m', None) => inr m'
    | (_, Some e) => inl e
    end.
Proof.
  induction l as [| [s b] l IH]; intros m; simpl; [reflexivity |].
  destruct (ToAccountID s); [reflexivity | apply IH].
Qed.

(** An id that no genesis key parses to is not written by the loop, also
    when the loop stops at a key that does not parse. *)
Lemma seedGenesis_frame l k :
  (forall s b, In (s, b) l -> ToAccountID s <> inr k) ->
  forall m, acct (fst (seedGenesis ToAccountID l m)) k = acct m k.
Proof.
  induction l as [| [s b] l IH]; intros Hk m; simpl; [reflexivity |].
  destruct (ToAccountID s) as [e | id] eqn:Hs; [reflexivity |].
  rewrite IH by (intros s' b' Hin; apply (Hk s' b'); right; exact Hin).
  rewrite acct_insert_ne; [reflexivity |].
  intros ->. apply (Hk s b); [left; reflexivity | exact Hs].
Qed.

(** X14: the genesis loop succeeds exactly when every key parses. When
    it does, an id that a genesis key parses to holds the balance given
    for that key and the nonce 0, provided the genesis gives no other
    balance to that id; an id that no key parses to is left as it was. *)
Theorem applyGenesis_accounts l m :
  ((exists m', applyGenesis ToAccountID l m = inr m') <->
   Forall (fun p => exists id, ToAccountID p.1 = inr id) l) /\
  (forall m' s b id,
     applyGenesis ToAccountID l m = inr m' ->
     In (s, b) l ->
     ToAccountID s = inr id ->
     (forall s' b', In (s', b') l -> ToAccountID s' = inr id -> b' = b) ->
     acct m' id = mkAccount b 0) /\
  (forall m' k,
     applyGenesis ToAccountID l m = inr m' ->
     (forall s b, In (s, b) l -> ToAccountID s <> inr k) ->
     acct m' k = acct m k).
Proof.
  split; [| split].
  - revert m. induction l as [| [s b] l IH]; intros m; simpl.
    + split; [constructor | eauto].
    + destruct (ToAccountID s) as [e | id] eqn:Hs.
      * split; [intros [m' Hm']; discriminate |].
        intros Hall. inversion Hall as [| p l' [id Hid] _]; subst. simpl in Hid. congruence.
      * rewrite IH. split.
        -- intros Hall. constructor; [exists id; exact Hs | exact Hall].
        -- intros Hall. inversion Hall; assumption.
  - revert m. induction l as [| [s0 b0] l IH] using rev_ind; intros m m' s b id Hrun Hin Hs Huniq.
    + destruct Hin.
    + rewrite applyGenesis_app in Hrun.
      destruct (applyGenesis ToAccountID l m) as [e | m1] eqn:Hl; [discriminate |].
      simpl in Hrun. destruct (ToAccountID s0) as [e | id0] eqn:Hs0; [discriminate |].
      injection Hrun as <-.
      destruct (decide (id0 = id)) as [-> | Hne].
      * rewrite acct_insert_eq. f_equal.
        apply (Huniq s0 b0); [apply in_or_app; right; left; reflexivity | exact Hs0].
      * rewrite acct_insert_ne by exact Hne.
        apply (IH m m1 s b id Hl); [| exact Hs |].
        -- apply in_app_or in Hin as [Hin | [Heq | []]]; [exact Hin |].
           injection Heq as -> ->. congruence.
        -- intros s' b' Hin' Hs'. apply (Huniq s' b'); [| exact Hs'].
           apply in_or_app. left. exact Hin'.
  - intros m' k Hrun Hk.
    rewrite applyGenesis_seedGenesis in Hrun.
    pose proof (seedGenesis_frame l k Hk m) as Hframe.
    destruct (seedGenesis ToAccountID l m) as [m1 [e |]]; [discriminate |].
    injection Hrun as <-. exact Hframe.
Qed.

End GenesisFacts.

Section StartupFacts.

Variable FromAccount : BlockTx -> string + AccountID.
Variable ValidateBlock : Block -> Block -> option Error.
Variable ToAccountID : string -> Error + AccountID.
Context {I : Type} `{Iterator I}.

Lemma replayTrans_keeps_header block txs : forall db,
  let db' := foldl (fun d tx => fst (ApplyTransaction FromAccount d block tx)) db txs in
  genesis db' = genesis db /\ latestBlock db' = latestBlock db.
Proof.
  induction txs as [| tx txs IH]; intros db; simpl; [split; reflexivity |].
  destruct (IH (fst (ApplyTransaction FromAccount db block tx))) as [Hg Hl].
  destruct (ApplyTransaction_keeps_header FromAccount db block tx) as [Hg' Hl'].
  split; congruence.
Qed.

Lemma replayBlocks_keeps_header blocks : forall db,
  genesis (replayBlocks FromAccount db blocks) = genesis db /\
  latestBlock (replayBlocks FromAccount db blocks) = latestBlock db.
Proof.
  induction blocks as [| block blocks IH]; intros db; simpl; [split; reflexivity |].
  destruct (IH (replayBlock FromAccount db block)) as [Hg Hl].
  destruct (replayTrans_keeps_header block (Trans block) db) as [Hg' Hl'].
  unfold replayBlocks in *. simpl. rewrite Hg, Hl.
  unfold replayBlock, replayTrans, ApplyMiningReward. simpl. split; assumption.
Qed.

Lemma replayTrans_frame block k txs : forall db,
  k <> BeneficiaryID (Header block) ->
  (forall tx, In tx txs -> k <> ToID tx /\ FromAccount tx <> inr k) ->
  acct (accounts (foldl (fun d tx => fst (ApplyTransaction FromAccount d block tx)) db txs)) k
    = acct (accounts db) k.
Proof.
  induction txs as [| tx txs IH]; intros db Hb Htxs; simpl; [reflexivity |].
  rewrite IH by (try assumption; intros tx' Hin; apply Htxs; right; exact Hin).
  destruct (Htxs tx (or_introl eq_refl)) as [Hto Hfrom].
  apply (ApplyTransaction_untouched FromAccount db block tx k Hfrom Hto Hb).
Qed.

(** X15: the replay of stored blocks leaves alone every account that the
    blocks do not name. An id that is not the beneficiary of any of the
    blocks, nor the recipient or the recovered sender of any of their
    transactions, reads after the replay as it read before it. *)
Theorem replayBlocks_frame k blocks : forall db,
  (forall block, In block blocks -> ~ involved FromAccount block k) ->
  acct (accounts (replayBlocks FromAccount db blocks)) k = acct (accounts db) k.
Proof.
  induction blocks as [| block blocks IH]; intros db Hfree; [reflexivity |].
  change (replayBlocks FromAccount db (block :: blocks))
    with (replayBlocks FromAccount (replayBlock FromAccount db block) blocks).
  rewrite IH by (intros b Hin; apply Hfree; right; exact Hin).
  assert (Hblock : ~ involved FromAccount block k) by (apply Hfree; left; reflexivity).
  assert (Hb : k <> BeneficiaryID (Header block)).
  { intros ->. apply Hblock. left. reflexivity. }
  unfold replayBlock, ApplyMiningReward. simpl. rewrite acct_insert_ne by congruence.
  apply replayTrans_frame; [exact Hb |].
  intros tx Hin. split.
  - intros ->. apply Hblock. right. exists tx. auto.
  - intros Hfrom. apply Hblock. right. exists tx. auto.
Qed.

(** X16: a database that [New] returns carries the genesis it was given,
    and its latest block is the last block that the read of the storage
    returned, the zero block when the storage holds none. *)
Theorem New_latest_block fuel gen (iter : I) db :
  New FromAccount ValidateBlock ToAccountID fuel gen iter = Some (inr db) ->
  genesis db = gen /\
  exists blocks,
    ReadAllBlocks ValidateBlock fuel iter true = Some (inr blocks) /\
    latestBlock db = default zeroBlock (last blocks).
Proof.
  unfold New.
  destruct (ReadAllBlocks ValidateBlock fuel iter true) as [[e | blocks] |];
    [discriminate | | discriminate].
  simpl. destruct (applyGenesis _ _ _) as [e | m]; [discriminate |].
  intros Hdb. injection Hdb as <-.
  match goal with
  | |- context [replayBlocks _ ?d _] =>
    destruct (replayBlocks_keeps_header blocks d) as [Hg Hl]
  end.
  rewrite Hg, Hl. simpl. split; [reflexivity |].
  exists blocks. split; reflexivity.
Qed.

Lemma readLoop_unvalidated (V1 V2 : Block -> Block -> option Error) fuel :
  forall (iter : I) acc latest1 latest2,
    readLoop V1 fuel false iter acc latest1 = readLoop V2 fuel false iter acc latest2.
Proof.
  induction fuel as [| fuel IH]; intros iter acc latest1 latest2; [reflexivity |].
  simpl. destruct (Next iter) as [[block err] iter'].
  destruct (Done iter'); [reflexivity |].
  destruct err; [reflexivity | apply IH].
Qed.

(** X17: with [validate] false, [ReadAllBlocks] does not depend on block
    validation at all: whatever [ValidateBlock] would answer, the same
    blocks or the same error come back. *)
Theorem ReadAllBlocks_skips_validation (V1 V2 : Block -> Block -> option Error)
    fuel (iter : I) :
  ReadAllBlocks V1 fuel iter false = ReadAllBlocks V2 fuel iter false.
Proof. apply readLoop_unvalidated. Qed.

Lemma linked_snoc prev acc : forall first block,
  linked ValidateBlock first acc ->
  prev = default first (last acc) ->
  ValidateBlock block prev = None ->
  linked ValidateBlock first (acc ++ [block]).
Proof.
  induction acc as [| b acc IH]; intros first block Hacc Hprev Hblock; simpl in *.
  - subst prev. split; [exact Hblock | trivial].
  - destruct Hacc as [Hb Hacc]. split; [exact Hb |].
    apply IH; [exact Hacc | | exact Hblock].
    rewrite Hprev, last_cons. destruct (last acc); reflexivity.
Qed.

Lemma readLoop_linked fuel : forall (iter : I) acc latest blocks,
  readLoop ValidateBlock fuel true iter acc latest = Some (inr blocks) ->
  linked ValidateBlock zeroBlock acc ->
  latest = default zeroBlock (last acc) ->
  linked ValidateBlock zeroBlock blocks.
Proof.
  induction fuel as [| fuel IH]; intros iter acc latest blocks Hrun Hacc Hlatest;
    [discriminate |].
  simpl in Hrun. destruct (Next iter) as [[block err] iter'].
  destruct (Done iter'); [injection Hrun as <-; exact Hacc |].
  destruct err; [discriminate |].
  destruct (ValidateBlock block latest) eqn:Hvalid; [discriminate |].
  apply (IH _ _ _ _ Hrun).
  - apply (linked_snoc latest); assumption.
  - rewrite last_snoc. reflexivity.
Qed.

(** X18: the blocks that [ReadAllBlocks] returns with [validate] true are
    linked by the validation: the first one passed [ValidateBlock] against
    the zero block and each later one against the block before it. *)
Theorem ReadAllBlocks_linked fuel (iter : I) blocks :
  ReadAllBlocks ValidateBlock fuel iter true = Some (inr blocks) ->
  linked ValidateBlock zeroBlock blocks.
Proof.
  intros Hrun. apply (readLoop_linked _ _ _ _ _ Hrun); [simpl; trivial | reflexivity].
Qed.

End StartupFacts.

Section ResetFacts.

Variable FromAccount : BlockTx -> string + AccountID.
Variable ValidateBlock : Block -> Block -> option Error.
Variable ToAccountID : string -> Error + AccountID.
Variable Store : Type.
Variable storageReset : Store -> Store * option Error.
Context {I : Type} `{Iterator I}.

(** Whether the genesis loop fails does not depend on the map it starts
    from. *)
Lemma applyGenesis_kind_map l : forall m m',
  match applyGenesis ToAccountID l m, applyGenesis ToAccountID l m' with
  | inl _, inl _ | inr _, inr _ => True
  | _, _ => False
  end.
Proof.
  induction l as [| [s b] l IH]; intros m m'; simpl; [trivial |].
  destruct (ToAccountID s); [trivial | apply IH].
Qed.

(** Nor does it depend on the order in which the genesis map is visited. *)
Lemma applyGenesis_kind_permutation l1 l2 :
  l1 ≡ₚ l2 ->
  forall m m',
    match applyGenesis ToAccountID l1 m, applyGenesis ToAccountID l2 m' with
    | inl _, inl _ | inr _, inr _ => True
    | _, _ => False
    end.
Proof.
  induction 1 as [| [s b] l l' Hperm IH | [s b] [s' b'] l | l l' l'' H1 IH1 H2 IH2];
    intros m m'.
  - simpl. trivial.
  - simpl. destruct (ToAccountID s); [trivial | apply IH].
  - simpl. destruct (ToAccountID s), (ToAccountID s'); try trivial.
    apply applyGenesis_kind_map.
  - specialize (IH1 m m'). specialize (IH2 m' m').
    destruct (applyGenesis ToAccountID l m), (applyGenesis ToAccountID l' m'),
      (applyGenesis ToAccountID l'' m'); tauto.
Qed.

Lemma oneBalancePerId_tail p l :
  oneBalancePerId ToAccountID (p :: l) -> oneBalancePerId ToAccountID l.
Proof.
  intros Hone s b s' b' id Hin Hin'. apply (Hone s b s' b' id); right; assumption.
Qed.

Lemma oneBalancePerId_permutation l l' :
  l ≡ₚ l' -> oneBalancePerId ToAccountID l -> oneBalancePerId ToAccountID l'.
Proof.
  intros Hperm Hone s b s' b' id Hin Hin'.
  apply (Hone s b s' b' id); eapply Permutation_in; try eassumption;
    symmetry; exact Hperm.
Qed.

(** When no id is given two balances, the accounts that the genesis loop
    builds do not depend on the order of the visit either. *)
Lemma applyGenesis_permutation l1 l2 :
  l1 ≡ₚ l2 ->
  oneBalancePerId ToAccountID l1 ->
  forall m m1 m2,
    applyGenesis ToAccountID l1 m = inr m1 ->
    applyGenesis ToAccountID l2 m = inr m2 ->
    m1 = m2.
Proof.
  induction 1 as [| [s b] l l' Hperm IH | [s b] [s' b'] l | l l' l'' H1 IH1 H2 IH2];
    intros Hone m m1 m2 Hrun1 Hrun2.
  - simpl in *. congruence.
  - simpl in *. destruct (ToAccountID s) as [e | id]; [discriminate |].
    apply (IH (oneBalancePerId_tail _ _ Hone) _ _ _ Hrun1 Hrun2).
  - simpl in *.
    destruct (ToAccountID s) as [e | id] eqn:Hs; [destruct (ToAccountID s'); discriminate |].
    destruct (ToAccountID s') as [e | id'] eqn:Hs'; [discriminate |].
    assert (Hmaps : <[id := mkAccount b 0]> (<[id' := mkAccount b' 0]> m)
                    = <[id' := mkAccount b' 0]> (<[id := mkAccount b 0]> m)).
    { destruct (decide (id = id')) as [<- | Hne]; [| apply insert_insert_ne; congruence].
      assert (b = b') as <-; [| reflexivity].
      apply (Hone s b s' b' id); simpl; auto. }
    rewrite Hmaps in Hrun1. congruence.
  - pose proof (applyGenesis_kind_permutation l l' H1 m m) as Hkind.
    rewrite Hrun1 in Hkind.
    destruct (applyGenesis ToAccountID l' m) as [e | m'] eqn:Hrun'; [contradiction |].
    rewrite (IH1 Hone m m1 m' Hrun1 Hrun').
    apply (IH2 (oneBalancePerId_permutation _ _ H1 Hone) m m' m2 Hrun' Hrun2).
Qed.

(** X19: [Reset] and a start on an empty store agree, in whatever order
    each of the two visits the genesis balances. Let the cursor report the
    end right after its first [Next], and let [New] be given the genesis
    of the database with its balances in any order. Then [New] returns an
    error exactly when [Reset] does. And when no id is given two different
    balances and [Reset] returns nil, [New] returns a database with the
    accounts and the latest block of the database that [Reset] leaves. *)
Theorem Reset_like_New db (st : Store) gen (iter : I) fuel :
  doneAfter iter 0 = true ->
  (0 < fuel)%nat ->
  Balances gen ≡ₚ Balances (genesis db) ->
  let r := Reset ToAccountID storageReset db st in
  ((exists e, New FromAccount ValidateBlock ToAccountID fuel gen iter = Some (inl e)) <->
   snd r <> None) /\
  (oneBalancePerId ToAccountID (Balances gen) ->
   snd r = None ->
   exists dbN,
     New FromAccount ValidateBlock ToAccountID fuel gen iter = Some (inr dbN) /\
     accounts dbN = accounts (fst (fst r)) /\
     latestBlock dbN = latestBlock (fst (fst r)) /\
     genesis dbN = gen).
Proof.
  intros Hdone Hfuel Hperm. cbv zeta. destruct fuel as [| fuel]; [lia |].
  assert (Hnew : New FromAccount ValidateBlock ToAccountID (S fuel) gen iter =
                 Some match applyGenesis ToAccountID (Balances gen) ∅ with
                      | inl e => inl e
                      | inr m => inr (mkDatabase gen zeroBlock m)
                      end).
  { unfold New, ReadAllBlocks.
    change (readLoop ValidateBlock (S fuel) true iter [] zeroBlock)
      with (readLoop ValidateBlock (S fuel) true (nexts 0 iter) [] zeroBlock).
    rewrite (readLoop_round ValidateBlock), Hdone. simpl.
    destruct (applyGenesis _ _ _); reflexivity. }
  rewrite Hnew.
  pose proof (applyGenesis_kind_permutation _ _ Hperm ∅ ∅) as Hkind.
  unfold Reset. simpl.
  destruct (seedGenesis ToAccountID (Balances (genesis db)) ∅) as [m2 err2] eqn:Hseed.
  assert (Hrun2 : applyGenesis ToAccountID (Balances (genesis db)) ∅
                  = match err2 with Some e => inl e | None => inr m2 end).
  { rewrite applyGenesis_seedGenesis, Hseed. destruct err2; reflexivity. }
  rewrite Hrun2 in Hkind.
  destruct (applyGenesis ToAccountID (Balances gen) ∅) as [e1 | m1] eqn:Hrun1;
    destruct err2 as [e2 |]; simpl in *; try contradiction.
  - split; [split; [discriminate | eauto] | discriminate].
  - split; [split; [intros [e He]; discriminate | congruence] |].
    intros Hone _. exists (mkDatabase gen zeroBlock m1). simpl.
    repeat split. apply (applyGenesis_permutation _ _ Hperm Hone ∅ m1 m2 Hrun1 Hrun2).
Qed.

(** X20: whatever [Reset] returns, it has dropped what the database held.
    The latest block is the zero block, the storage is the one its own
    reset left, also when that reset reported an error, and an id that no
    genesis key parses to reads as the zero account, even when [Reset]
    stops at a genesis key that does not parse. *)
Theorem Reset_drops_old_state db (st : Store) :
  let r := Reset ToAccountID storageReset db st in
  latestBlock (fst (fst r)) = zeroBlock /\
  genesis (fst (fst r)) = genesis db /\
  snd (fst r) = fst (storageReset st) /\
  forall k,
    (forall s b, In (s, b) (Balances (genesis db)) -> ToAccountID s <> inr k) ->
    acct (accounts (fst (fst r))) k = zeroAccount.
Proof.
  cbv zeta. unfold Reset. simpl.
  destruct (seedGenesis ToAccountID (Balances (genesis db)) ∅) as [m err] eqn:Hseed.
  simpl. repeat split.
  intros k Hk.
  pose proof (seedGenesis_frame ToAccountID (Balances (genesis db)) k Hk ∅) as Hframe.
  rewrite Hseed in Hframe. simpl in Hframe. rewrite Hframe. apply acct_empty.
Qed.

End ResetFacts.

(** ** The database methods on the scenarios *)

Lemma ApplyMiningReward_credits_witness :
  acct (accounts (ApplyMiningReward dbABM blockOne)) "M" = mkAccount 700 0 /\
  totalBalance (accounts (ApplyMiningReward dbABM blockOne)) = totalBalance (accounts dbABM) + 700.
Proof.
  destruct (ApplyMiningReward_credits dbABM blockOne dbABM_wf) as (Hm & _ & Htotal).
  - discriminate.
  - reflexivity.
  - split; [exact Hm | exact Htotal].
Defined.

Lemma applyGenesis_accounts_witness :
  exists m, applyGenesis plainToAccountID (Balances genesisAB) ∅ = inr m /\
            acct m "A" = mkAccount 1000 0.
Proof.
  destruct (applyGenesis_accounts plainToAccountID (Balances genesisAB) ∅)
    as (Hok & Hacct & _).
  assert (Hm : exists m, applyGenesis plainToAccountID (Balances genesisAB) ∅ = inr m).
  { apply Hok. repeat constructor; simpl; eauto. }
  destruct Hm as [m Hm]. exists m. split; [exact Hm |].
  apply (Hacct m "A"%string 1000 "A"%string Hm).
  - left. reflexivity.
  - reflexivity.
  - intros s' b' [Heq | [Heq | []]] Hs'.
    + congruence.
    + injection Heq as <- <-. discriminate.
Defined.

Lemma replayBlocks_frame_witness :
  acct (accounts (replayBlocks sigFromAccount dbGenesisAB [blockOne])) "C"
    = acct (accounts dbGenesisAB) "C".
Proof.
  apply (replayBlocks_frame sigFromAccount "C"%string [blockOne] dbGenesisAB).
  intros block [<- | []] [Hb | (tx & [<- | []] & [Hto | Hfrom])]; discriminate.
Defined.

Lemma New_latest_block_witness :
  New sigFromAccount numberValidate plainToAccountID 2 genesisAB (storedChain [blockOne])
    = Some (inr (replayBlocks sigFromAccount dbGenesisAB [blockOne])) /\
  genesis (replayBlocks sigFromAccount dbGenesisAB [blockOne]) = genesisAB.
Proof.
  assert (Hnew : New sigFromAccount numberValidate plainToAccountID 2 genesisAB
                   (storedChain [blockOne])
                 = Some (inr (replayBlocks sigFromAccount dbGenesisAB [blockOne])))
    by reflexivity.
  split; [exact Hnew |].
  exact (proj1 (New_latest_block sigFromAccount numberValidate plainToAccountID 2 genesisAB
                  (storedChain [blockOne]) _ Hnew)).
Defined.

Lemma ReadAllBlocks_linked_witness :
  ReadAllBlocks numberValidate 3 (storedChain [blockOne; blockTwo]) true
    = Some (inr [blockOne; blockTwo]) /\
  linked numberValidate zeroBlock [blockOne; blockTwo].
Proof.
  split; [reflexivity |].
  apply (ReadAllBlocks_linked numberValidate 3 (storedChain [blockOne; blockTwo])).
  reflexivity.
Defined.

Lemma genesisBA_oneBalancePerId : oneBalancePerId plainToAccountID (Balances genesisBA).
Proof.
  intros s b s' b' id [H1 | [H1 | []]] [H2 | [H2 | []]];
    injection H1 as <- <-; injection H2 as <- <-; intros Hs Hs';
    vm_compute in Hs, Hs'; congruence.
Qed.

Lemma Reset_like_New_witness :
  Balances genesisBA ≡ₚ Balances (genesis dbGenesisAB) /\
  snd (Reset plainToAccountID stuckReset dbGenesisAB [blockOne]) = None /\
  exists dbN,
    New sigFromAccount numberValidate plainToAccountID 1 genesisBA emptyStore
      = Some (inr dbN) /\
    accounts dbN = accounts (fst (fst (Reset plainToAccountID stuckReset dbGenesisAB
                                         [blockOne]))).
Proof.
  assert (Hperm : Balances genesisBA ≡ₚ Balances (genesis dbGenesisAB))
    by apply perm_swap.
  assert (Hdone : doneAfter emptyStore 0 = true) by reflexivity.
  split; [exact Hperm |]. split; [reflexivity |].
  destruct (Reset_like_New sigFromAccount numberValidate plainToAccountID (list Block)
              stuckReset dbGenesisAB [blockOne] genesisBA emptyStore 1 Hdone
              (Nat.lt_0_succ 0) Hperm) as [_ Hagree].
  destruct (Hagree genesisBA_oneBalancePerId eq_refl) as (dbN & Hnew & Haccounts & _).
  exists dbN. split; [exact Hnew | exact Haccounts].
Defined.

(** * The worker *)

Section AddNewPeersFacts.

Variable State : Type.
Variable addPeerNode : State -> Peer -> State * option Error.

Lemma addNewPeersLoop_prefix knownPeers : forall (w : World State),
  snd (addNewPeersLoop addPeerNode knownPeers w) = None /\
  exists k, wCalls (fst (addNewPeersLoop addPeerNode knownPeers w))
            = wCalls w ++ take k knownPeers.
Proof.
  induction knownPeers as [| peer rest IH]; intros w; simpl.
  - split; [reflexivity |]. exists 0%nat. rewrite app_nil_r. reflexivity.
  - unfold callAddPeerNode. destruct (addPeerNode (wState w) peer) as [s [e |]]; simpl.
    + split; [reflexivity |]. exists 1%nat. reflexivity.
    + destruct (IH (evHandler (EvAddingPeer peer) (mkWorld s (wCalls w ++ [peer]) (wLog w))))
        as [Hnil [k Hk]].
      split; [exact Hnil |]. exists (S k). rewrite Hk. simpl.
      rewrite <- app_assoc. reflexivity.
Qed.

(** X21: [addNewPeers] returns nil for every list of peers, every
    [addPeerNode] and every state, so its caller's error branch is never
    taken; and the peers it hands to [addPeerNode] are an initial segment
    of the list it was given, in the order of the list. *)
Theorem addNewPeers_never_fails knownPeers (w : World State) :
  snd (addNewPeers addPeerNode knownPeers w) = None /\
  exists k, wCalls (fst (addNewPeers addPeerNode knownPeers w))
            = wCalls w ++ take k knownPeers.
Proof.
  unfold addNewPeers.
  destruct (addNewPeersLoop_prefix knownPeers (evHandler EvStarted w)) as [Hnil [k Hk]].
  destruct (addNewPeersLoop addPeerNode knownPeers (evHandler EvStarted w)) as [w' err].
  simpl in *. split; [exact Hnil |]. exists k. exact Hk.
Qed.

End AddNewPeersFacts.

(** ** Signals *)

Lemma offer_full {A} capacity (x : A) ch :
  (capacity <= length ch)%nat -> offer capacity x ch = (ch, false).
Proof.
  intros Hfull. unfold offer.
  destruct (Nat.ltb_spec (length ch) capacity); [lia | reflexivity].
Qed.

Lemma offer_room {A} capacity (x : A) ch :
  (length ch < capacity)%nat -> offer capacity x ch = (ch ++ [x], true).
Proof.
  intros Hroom. unfold offer.
  destruct (Nat.ltb_spec (length ch) capacity); [reflexivity | lia].
Qed.

(** Offers to a channel with room for one value: after the first, the
    channel holds one value and every further offer is dropped. *)
Lemma offer_one_coalesces n (ch : list bool) :
  (length ch <= 1)%nat ->
  length (Nat.iter (S n) (fun c => fst (offer 1 true c)) ch) = 1%nat.
Proof.
  intros Hcap. induction n as [| n IH].
  - simpl. destruct ch as [| b [| b' ch]]; simpl in *; try lia.
  - change (Nat.iter (S (S n)) (fun c => fst (offer 1 true c)) ch)
      with (fst (offer 1 true (Nat.iter (S n) (fun c => fst (offer 1 true c)) ch))).
    rewrite offer_full by lia. exact IH.
Qed.

Section SignalFacts.

Variable Tx : Type.

Lemma signalStartMining_iter n (w : Signals Tx) :
  startMining (Nat.iter n signalStartMining w)
    = Nat.iter n (fun c => fst (offer 1 true c)) (startMining w) /\
  peerUpdates (Nat.iter n signalStartMining w) = peerUpdates w /\
  cancelMining (Nat.iter n signalStartMining w) = cancelMining w /\
  txSharing (Nat.iter n signalStartMining w) = txSharing w.
Proof.
  induction n as [| n (Hs & Hp & Hc & Ht)]; [repeat split |].
  simpl. rewrite Hs, Hp, Hc, Ht. repeat split.
Qed.

(** X22: start-mining signals coalesce. However often
    [signalStartMining] is called, once or more, on a channel within its
    capacity of one, a single signal is pending afterwards and no other
    channel has changed: the calls after the first one are dropped, none
    blocks. *)
Theorem signalStartMining_coalesces n (w : Signals Tx) :
  (length (startMining w) <= 1)%nat ->
  let w' := Nat.iter (S n) signalStartMining w in
  length (startMining w') = 1%nat /\
  peerUpdates w' = peerUpdates w /\
  cancelMining w' = cancelMining w /\
  txSharing w' = txSharing w.
Proof.
  intros Hcap. cbv zeta.
  destruct (signalStartMining_iter (S n) w) as (Hs & Hp & Hc & Ht).
  rewrite Hs. split; [apply offer_one_coalesces; exact Hcap | auto].
Qed.

Lemma signalShareTransactions_queue (txs : list Tx) (w : Signals Tx) :
  txSharing (signalShareTransactions txs w)
    = fst (offer maxTxShareRequests txs (txSharing w)).
Proof.
  unfold signalShareTransactions.
  destruct (offer maxTxShareRequests txs (txSharing w)) as [ch [|]]; reflexivity.
Qed.

(** X23: the share queue keeps the order of the offers and never holds
    more than [maxTxShareRequests] batches. After any run of calls of
    [signalShareTransactions], the queue is what it held before followed
    by the offered batches, cut off after the first 100: the batches
    offered to a full queue are dropped. *)
Theorem signalShareTransactions_bounded batches : forall (w : Signals Tx),
  (length (txSharing w) <= maxTxShareRequests)%nat ->
  txSharing (foldl (fun w txs => signalShareTransactions txs w) w batches)
    = take maxTxShareRequests (txSharing w ++ batches).
Proof.
  induction batches as [| txs batches IH]; intros w Hcap; simpl.
  - rewrite app_nil_r, take_ge by exact Hcap. reflexivity.
  - assert (Hq := signalShareTransactions_queue txs w).
    destruct (decide (length (txSharing w) < maxTxShareRequests)%nat) as [Hroom | Hfull].
    + rewrite offer_room in Hq by exact Hroom. simpl in Hq.
      rewrite IH by (rewrite Hq, length_app; simpl; lia).
      rewrite Hq, <- app_assoc. reflexivity.
    + rewrite offer_full in Hq by lia. simpl in Hq.
      rewrite IH by (rewrite Hq; exact Hcap).
      rewrite Hq. rewrite !take_app_le by lia. reflexivity.
Qed.

End SignalFacts.

(** ** Requests *)

Section SendFacts.

Variable Net : Type.
Variable clientDo : Net -> Request -> Net * (Error + Response).
Variable requestError : string -> string -> option Error.

(** X24: how [send] reads a response. Once the request is built and the
    client has an answer, the request has gone out exactly once; a status
    of 204 is success and leaves the value behind [dataRecv] as it was,
    whatever the body holds; a status other than 200 and 204 is an error
    whose text is the body of the response, and nothing is decoded. *)
Theorem send_reads_status {A B : Type} (marshal : A -> Error + string)
    (decode : string -> B -> B * option Error) method url
    (dataSend : option A) (dataRecv : option B) (w : Wire Net) body net resp :
  match dataSend with
  | Some d => marshal d = inr body
  | None => True
  end ->
  requestError method url = None ->
  let req := mkRequest method url (match dataSend with Some _ => Some body | None => None end) in
  clientDo (wireNet w) req = (net, inr resp) ->
  let r := send clientDo requestError marshal decode method url dataSend dataRecv w in
  fst (fst r) = mkWire net (wireSent w ++ [req]) /\
  (StatusCode resp = 204 -> snd (fst r) = dataRecv /\ snd r = None) /\
  (StatusCode resp <> 204 -> StatusCode resp <> 200 ->
   forall msg, Body resp = inr msg ->
     snd (fst r) = dataRecv /\ snd r = Some (ErrExternal msg)).
Proof.
  intros Hbody Hreq. cbv zeta. intros Hdo.
  assert (Hsend :
    send clientDo requestError marshal decode method url dataSend dataRecv w =
    let w' := mkWire net (wireSent w ++
                [mkRequest method url (match dataSend with Some _ => Some body | None => None end)]) in
    if Z.eqb (StatusCode resp) 204 then (w', dataRecv, None)
    else if negb (Z.eqb (StatusCode resp) 200) then
      match Body resp with
      | inl err => (w', dataRecv, Some err)
      | inr msg => (w', dataRecv, Some (ErrExternal msg))
      end
    else
      match dataRecv with
      | Some r =>
        match Body resp with
        | inl err => (w', dataRecv, Some err)
        | inr text => let '(r, err) := decode text r in (w', Some r, err)
        end
      | None => (w', dataRecv, None)
      end).
  { unfold send, NewRequest. rewrite Hreq.
    destruct dataSend as [d |]; [rewrite Hbody |]; rewrite Hdo; reflexivity. }
  rewrite Hsend. cbv zeta.
  destruct (Z.eqb_spec (StatusCode resp) 204) as [H204 | H204].
  { repeat split; intros; congruence. }
  destruct (Z.eqb_spec (StatusCode resp) 200) as [H200 | H200]; simpl.
  - split; [| split; intros; congruence].
    destruct dataRecv as [r |]; [| reflexivity].
    destruct (Body resp) as [e | text]; [reflexivity |].
    destruct (decode text r); reflexivity.
  - destruct (Body resp) as [e | text]; simpl.
    + repeat split; intros; congruence.
    + repeat split; intros; congruence.
Qed.

End SendFacts.

(** ** Peer operations *)

Section PeerFacts.

Context `{PeerEnv}.

Lemma sendBlockLoop_accepted block w pre w1 :
  Accepted (postBlock block) w pre w1 ->
  forall rest (n : Node),
    nWire n = w ->
    exists n1,
      nWire n1 = w1 /\ nState n1 = nState n /\
      sendBlockLoop block (pre ++ rest) n = sendBlockLoop block rest n1.
Proof.
  induction 1 as [w | w peer w1 pre w2 Hsend Hpre IH]; intros rest n Hn.
  - exists n. repeat split. exact Hn.
  - simpl. rewrite Hn, Hsend.
    match goal with
    | |- context [sendBlockLoop block (pre ++ rest) ?n1] =>
      destruct (IH rest n1 eq_refl) as (n2 & Hw & Hs & Hrun)
    end.
    exists n2. repeat split; assumption.
Qed.

(** X25: [sendBlockToPeers] gives up at the first peer that fails. Let
    the sends to the peers [pre] succeed one after the other. If they
    are all the known peers, nil is returned. If the send to the peer
    that follows them fails, the error returned is the text of that
    failure behind the host of the peer, the wire is the one the failed
    send left, and the known peers after it are sent nothing. *)
Theorem sendBlockToPeers_stops_at_first_error block (n : Node) pre w1 :
  Accepted (postBlock block) (nWire n) pre w1 ->
  (CopyKnownPeers (nState n) = pre ->
   snd (sendBlockToPeers block n) = None /\
   nWire (fst (sendBlockToPeers block n)) = w1) /\
  (forall peer post w2 e,
     CopyKnownPeers (nState n) = pre ++ peer :: post ->
     postBlock block w1 peer = (w2, Some e) ->
     snd (sendBlockToPeers block n)
       = Some (ErrExternal (Host peer +:+ ": " +:+ errorText e)) /\
     nWire (fst (sendBlockToPeers block n)) = w2).
Proof.
  intros Hpre. unfold sendBlockToPeers. cbn [nState note]. split.
  - intros ->.
    match goal with
    | |- context [sendBlockLoop block _ ?n0] =>
      destruct (sendBlockLoop_accepted _ _ _ _ Hpre [] n0 eq_refl) as (n1 & Hw & _ & Hrun)
    end.
    simpl in Hrun. rewrite app_nil_r in Hrun. rewrite Hrun. simpl.
    split; [reflexivity | exact Hw].
  - intros peer post w2 e -> Hfail.
    match goal with
    | |- context [sendBlockLoop block _ ?n0] =>
      destruct (sendBlockLoop_accepted _ _ _ _ Hpre (peer :: post) n0 eq_refl)
        as (n1 & Hw & _ & Hrun)
    end.
    simpl in Hrun. rewrite Hw, Hfail in Hrun. rewrite Hrun. simpl.
    split; reflexivity.
Qed.

Lemma postTxs_sent txs data (w : Wire Net) peer :
  marshalTxs txs = inr data ->
  requestError "POST" (baseURL (Host peer) +:+ "/tx/add") = None ->
  wireSent (fst (postTxs txs w peer))
    = wireSent w ++ [mkRequest "POST" (baseURL (Host peer) +:+ "/tx/add") (Some data)].
Proof.
  intros Hdata Hreq. unfold postTxs, send, NewRequest. rewrite Hdata, Hreq.
  destruct (clientDo _ _) as [net [e | resp]]; [reflexivity |].
  destruct (Z.eqb (StatusCode resp) 204); [reflexivity |].
  destruct (negb (Z.eqb (StatusCode resp) 200)); [| reflexivity].
  destruct (Body resp); reflexivity.
Qed.

Lemma shareTxLoop_sent txs data peers : forall (n : Node),
  marshalTxs txs = inr data ->
  (forall peer, In peer peers ->
     requestError "POST" (baseURL (Host peer) +:+ "/tx/add") = None) ->
  wireSent (nWire (shareTxLoop txs peers n))
    = wireSent (nWire n)
      ++ map (fun peer => mkRequest "POST" (baseURL (Host peer) +:+ "/tx/add") (Some data))
           peers /\
  nState (shareTxLoop txs peers n) = nState n.
Proof.
  induction peers as [| peer rest IH]; intros n Hdata Hreq; simpl.
  - rewrite app_nil_r. split; reflexivity.
  - pose proof (postTxs_sent txs data (nWire n) peer Hdata (Hreq peer (or_introl eq_refl)))
      as Hsent.
    destruct (postTxs txs (nWire n) peer) as [w err]. simpl in Hsent.
    match goal with
    | |- context [shareTxLoop txs rest ?n1] =>
      destruct (IH n1 Hdata (fun p Hp => Hreq p (or_intror Hp))) as [Hw Hs];
      assert (Hw1 : wireSent (nWire n1) = wireSent w) by (destruct err; reflexivity);
      assert (Hs1 : nState n1 = nState n) by (destruct err; reflexivity)
    end.
    rewrite Hw, Hs, Hw1, Hs1, Hsent, <- app_assoc. split; reflexivity.
Qed.

(** X26: [runShareTxOperation] goes on after a failure. When the
    transactions marshal and a request can be built for every known
    peer, exactly one POST to [/tx/add] with the marshalled transactions
    goes out to each known peer, in the order of the peer list, whatever
    the peers answer and whichever sends fail; the node state is left as
    it was. *)
Theorem runShareTxOperation_contacts_all txs data (n : Node) :
  marshalTxs txs = inr data ->
  (forall peer, In peer (CopyKnownPeers (nState n)) ->
     requestError "POST" (baseURL (Host peer) +:+ "/tx/add") = None) ->
  wireSent (nWire (runShareTxOperation txs n))
    = wireSent (nWire n)
      ++ map (fun peer => mkRequest "POST" (baseURL (Host peer) +:+ "/tx/add") (Some data))
           (CopyKnownPeers (nState n)) /\
  nState (runShareTxOperation txs n) = nState n.
Proof.
  intros Hdata Hreq. unfold runShareTxOperation. simpl.
  exact (shareTxLoop_sent txs data _ (note "bcWorker: runShareTxOperation: started" [] n)
           Hdata Hreq).
Qed.

(** X27: a peer whose status cannot be had costs one request and nothing
    else. When the send of [queryPeerStatus] returns an error, the round
    of [runPeerUpdatesOperation] for that peer hands no peer to
    [addPeerNode], fetches and writes no block, leaves the node state as
    it was and the wire as the failed send left it, and the loop goes on
    with the next peer. *)
Theorem peerUpdate_unreachable peer (n : Node) w r e :
  getStatus (nWire n) peer = (w, r, Some e) ->
  0 <= headerNumber (CopyLatestBlock (nState n)) ->
  snd (peerUpdate peer n) = false /\
  nState (fst (peerUpdate peer n)) = nState n /\
  nCalls (fst (peerUpdate peer n)) = nCalls n /\
  nWire (fst (peerUpdate peer n)) = w.
Proof.
  intros Hstatus Hnumber. unfold peerUpdate, queryPeerStatus. simpl.
  rewrite Hstatus. simpl.
  destruct (Z.ltb_spec (headerNumber (CopyLatestBlock (nState n))) 0); [lia |].
  repeat split.
Qed.

Lemma writeBlocksLoop_accepted s pre s1 :
  Accepted WriteNextBlock s pre s1 ->
  forall rest (n : Node),
    nState n = s ->
    exists n1,
      nState n1 = s1 /\ nWire n1 = nWire n /\ nCalls n1 = nCalls n /\
      writeBlocksLoop (pre ++ rest) n = writeBlocksLoop rest n1.
Proof.
  induction 1 as [s | s block s1 pre s2 Hwrite Hpre IH]; intros rest n Hn.
  - exists n. repeat split. exact Hn.
  - simpl. unfold writeBlock. simpl. rewrite Hn, Hwrite.
    match goal with
    | |- context [writeBlocksLoop (pre ++ rest) ?n1] =>
      destruct (IH rest n1 eq_refl) as (n2 & Hs & Hw & Hc & Hrun)
    end.
    exists n2. repeat split; assumption.
Qed.

(** X28: [writePeerBlocks] writes the fetched blocks in order and stops
    at the first one that is refused. Let the request for the blocks
    from the number after the latest one bring [blocks], and let
    [WriteNextBlock] accept the blocks [pre] in turn. If they are all of
    [blocks], nil is returned and the state is the one after the last
    write. If the block that follows them is refused, its error is
    returned, the state is the one the refused write left, and the blocks
    after it are not handed to [WriteNextBlock]. *)
Theorem writePeerBlocks_in_order peer (n : Node) w blocks pre s1 :
  getBlocks (add64 (headerNumber (CopyLatestBlock (nState n))) 1) (nWire n) peer
    = (w, Some blocks, None) ->
  Accepted WriteNextBlock (nState n) pre s1 ->
  (blocks = pre ->
   snd (writePeerBlocks peer n) = None /\
   nState (fst (writePeerBlocks peer n)) = s1 /\
   nWire (fst (writePeerBlocks peer n)) = w) /\
  (forall block post s2 e,
     blocks = pre ++ block :: post ->
     WriteNextBlock s1 block = (s2, Some e) ->
     snd (writePeerBlocks peer n) = Some e /\
     nState (fst (writePeerBlocks peer n)) = s2 /\
     nWire (fst (writePeerBlocks peer n)) = w).
Proof.
  intros Hfetch Hpre. unfold writePeerBlocks. simpl. rewrite Hfetch. simpl. split.
  - intros ->.
    match goal with
    | |- context [writeBlocksLoop pre ?n0] =>
      destruct (writeBlocksLoop_accepted _ _ _ Hpre [] n0 eq_refl)
        as (n1 & Hs & Hw & _ & Hrun)
    end.
    rewrite app_nil_r in Hrun. rewrite Hrun. simpl. repeat split; assumption.
  - intros block post s2 e -> Hfail.
    match goal with
    | |- context [writeBlocksLoop _ ?n0] =>
      destruct (writeBlocksLoop_accepted _ _ _ Hpre (block :: post) n0 eq_refl)
        as (n1 & Hs & Hw & _ & Hrun)
    end.
    rewrite Hrun. simpl. unfold writeBlock. simpl. rewrite Hs, Hfail. simpl.
    repeat split; assumption.
Qed.

(** X29: a round of [runPeerUpdatesOperation] ends the pass only on a
    fork, and then the chain has been cut back: when the round for a peer
    leaves the loop, the state is one that [Truncate] returned, and the
    peers after it in the list are not visited in this pass. *)
Theorem peerUpdate_stops_on_fork peer (n : Node) rest :
  snd (peerUpdate peer n) = true ->
  (exists s, nState (fst (peerUpdate peer n)) = Truncate s) /\
  peerUpdatesLoop (peer :: rest) n = fst (peerUpdate peer n).
Proof.
  intros Hstop. split.
  - revert Hstop. unfold peerUpdate.
    destruct (queryPeerStatus peer n) as [n1 [peerStatus err1]].
    destruct (callAddNewPeers _ _) as [n2 err2].
    destruct (Z.ltb _ _); [| discriminate].
    destruct (writePeerBlocks _ _) as [n3 [e |]]; [| discriminate].
    destruct (isChainForked e); [| discriminate].
    intros _. simpl. eexists. reflexivity.
  - simpl. destruct (peerUpdate peer n) as [n1 stop]. simpl in Hstop. subst stop.
    reflexivity.
Qed.

End PeerFacts.

(** ** The worker on the small network *)

Lemma signalStartMining_coalesces_witness :
  startMining (Nat.iter 3 signalStartMining miningPending) = [true].
Proof.
  pose proof (signalStartMining_coalesces unit 2 miningPending) as Hone.
  destruct Hone as [Hlen _]; [simpl; lia |].
  reflexivity.
Defined.

Lemma signalShareTransactions_bounded_witness :
  txSharing (foldl (fun w txs => signalShareTransactions txs w) miningPending [[tt]; []])
    = [[tt]; []].
Proof.
  rewrite (signalShareTransactions_bounded unit [[tt]; []] miningPending).
  - reflexivity.
  - simpl. unfold maxTxShareRequests. lia.
Defined.

Lemma send_reads_status_witness :
  send noContentDo (fun _ _ => None) noData (fun _ (r : Z) => (r + 1, None))
    "GET" "http://a:9080/v1/node/status" None (Some 7) (mkWire 0%nat [])
  = (mkWire 1%nat [mkRequest "GET" "http://a:9080/v1/node/status" None], Some 7, None).
Proof.
  destruct (send_reads_status nat noContentDo (fun _ _ => None) noData
              (fun _ (r : Z) => (r + 1, None)) "GET" "http://a:9080/v1/node/status"
              None (Some 7) (mkWire 0%nat []) ""%string 1%nat
              (mkResponse 204 (inr "ignored"%string)) I eq_refl eq_refl)
    as (Hwire & H204 & _).
  destruct (H204 eq_refl) as [Hrecv Herr].
  destruct (send _ _ _ _ _ _ _ _ _) as [[w r] err]. simpl in *. congruence.
Defined.

Lemma sendBlockToPeers_stops_at_first_error_witness :
  snd (sendBlockToPeers (1 : @WBlock demoEnv) demoNode)
    = Some (ErrExternal "b:9080: connection refused") /\
  map reqURL (wireSent (nWire (fst (sendBlockToPeers (1 : @WBlock demoEnv) demoNode))))
    = ["http://a:9080/v1/node/block/next"; "http://b:9080/v1/node/block/next"]%string.
Proof.
  destruct (sendBlockToPeers_stops_at_first_error (1 : @WBlock demoEnv) demoNode [peerA]
              (fst (postBlock (1 : @WBlock demoEnv) (nWire demoNode) peerA))) as [_ Hstop].
  - eapply Accepted_cons; [reflexivity | apply Accepted_nil].
  - destruct (Hstop peerB [peerC]
                (fst (postBlock (1 : @WBlock demoEnv)
                        (fst (postBlock (1 : @WBlock demoEnv) (nWire demoNode) peerA)) peerB))
                (ErrExternal "connection refused") eq_refl eq_refl) as [Herr Hwire].
    split; [exact Herr |]. rewrite Hwire. reflexivity.
Defined.

Lemma runShareTxOperation_contacts_all_witness :
  map reqURL (wireSent (nWire (runShareTxOperation ([tt] : list (@Tx demoEnv)) demoNode)))
    = ["http://a:9080/v1/node/tx/add"; "http://b:9080/v1/node/tx/add";
       "http://c:9080/v1/node/tx/add"]%string.
Proof.
  destruct (runShareTxOperation_contacts_all ([tt] : list (@Tx demoEnv)) "[]"%string
              demoNode eq_refl) as [Hsent _].
  - intros peer _. reflexivity.
  - rewrite Hsent. reflexivity.
Defined.

Lemma peerUpdate_unreachable_witness :
  snd (peerUpdate peerB demoNode) = false /\
  nState (fst (peerUpdate peerB demoNode)) = nState demoNode.
Proof.
  destruct (peerUpdate_unreachable peerB demoNode
              (mkWire 1%nat [mkRequest "GET" "http://b:9080/v1/node/status" None])
              (Some zeroPeerStatus) (ErrExternal "connection refused") eq_refl)
    as (Hgo & Hstate & _).
  - simpl. lia.
  - split; [exact Hgo | exact Hstate].
Defined.

Lemma writePeerBlocks_in_order_witness :
  snd (writePeerBlocks peerA demoNode)
    = Some (ErrExternal "blockchain forked, start resync") /\
  nState (fst (writePeerBlocks peerA demoNode)) = mkDemoState [peerA; peerB; peerC] 1.
Proof.
  destruct (writePeerBlocks_in_order peerA demoNode
              (mkWire 1%nat [mkRequest "GET" "http://a:9080/v1/node/block/list/1/latest" None])
              [1; 3] [1] (mkDemoState [peerA; peerB; peerC] 1) eq_refl) as [_ Hstop].
  - eapply Accepted_cons; [reflexivity | apply Accepted_nil].
  - destruct (Hstop 3 [] (mkDemoState [peerA; peerB; peerC] 1)
                (ErrExternal "blockchain forked, start resync") eq_refl eq_refl)
      as (Herr & Hstate & _).
    split; [exact Herr | exact Hstate].
Defined.

Lemma peerUpdate_stops_on_fork_witness :
  snd (peerUpdate peerA demoNode) = true /\
  peerUpdatesLoop [peerA; peerB; peerC] demoNode = fst (peerUpdate peerA demoNode) /\
  dsHeight (nState (fst (peerUpdate peerA demoNode))) = 0.
Proof.
  assert (Hstop : snd (peerUpdate peerA demoNode) = true) by reflexivity.
  split; [exact Hstop |].
  destruct (peerUpdate_stops_on_fork peerA demoNode [peerB; peerC] Hstop) as [_ Hloop].
  split; [exact Hloop | reflexivity].
Defined.
